(** * Obun: the manifest parser and the directive assembler of [obun.py]

    A shallow embedding of [Manifest.parse], [CodeAssembler.strip_manifest],
    [CodeAssembler.build] and the part of [main.run_build] that computes the
    emitted text, together with the properties the specification states
    about them.

    Conventions.
    - A Python [str] is a sequence of Unicode code points: [str := list N].
    - [str.strip], [str.split], [str.splitlines] and [str.startswith] are
      modelled after CPython's algorithms, with CPython's tables of
      whitespace and of line boundaries.
    - A dict is a [gmap], a set is a [gset].
    - The file tree gives, for a canonical path, the text that
      [Path.read_text(encoding="utf-8")] returns, or nothing when the read
      raises.
    - The interpreter's limit on the depth of recursion is not modelled:
      [build] recurses as deep as the includes go. *)

From Stdlib Require Import NArith List String Ascii Lia.
From stdpp Require Import base decidable option list gmap sets fin_sets fin_maps.

Local Open Scope N_scope.

(** ** Python strings *)

Definition str := list N.

(** A literal of the source, as code points. *)
Definition lit (s : string) : str :=
  map N_of_ascii (list_ascii_of_string s).

Definition LF : N := 10.
Definition CR : N := 13.
Definition COLON : N := 58.

(** [_PyUnicode_IsWhitespace]: what [str.strip] and [str.split] remove. *)
Definition is_space (c : N) : bool :=
  ((9 <=? c) && (c <=? 13)) || ((28 <=? c) && (c <=? 32))
  || (c =? 133) || (c =? 160) || (c =? 5760)
  || ((8192 <=? c) && (c <=? 8202))
  || (c =? 8232) || (c =? 8233) || (c =? 8239) || (c =? 8287)
  || (c =? 12288).

(** [_PyUnicode_IsLinebreak]: where [str.splitlines] cuts. *)
Definition is_linebreak (c : N) : bool :=
  ((10 <=? c) && (c <=? 13)) || ((28 <=? c) && (c <=? 30))
  || (c =? 133) || (c =? 8232) || (c =? 8233).

Fixpoint drop_while (p : N -> bool) (s : str) : str :=
  match s with
  | [] => []
  | c :: s' => if p c then drop_while p s' else s
  end.

Fixpoint take_while (p : N -> bool) (s : str) : str :=
  match s with
  | [] => []
  | c :: s' => if p c then c :: take_while p s' else []
  end.

(** [s.strip()] *)
Definition strip (s : str) : str :=
  rev (drop_while is_space (rev (drop_while is_space s))).

(** [s.startswith(prefix)] *)
Fixpoint startswith (s prefix : str) {struct prefix} : bool :=
  match prefix with
  | [] => true
  | p :: prefix' =>
      match s with
      | [] => false
      | c :: s' => (c =? p) && startswith s' prefix'
      end
  end.

(** [s.splitlines(keepends)]: [cur] is the text of the line being read. *)
Fixpoint splitlines_from (keepends : bool) (cur : str) (s : str) : list str :=
  match s with
  | [] => match cur with [] => [] | _ => [cur] end
  | c :: s' =>
      if is_linebreak c then
        match s' with
        | c' :: s'' =>
            if (c =? CR) && (c' =? LF) then
              (cur ++ (if keepends then [c; c'] else []))
                :: splitlines_from keepends [] s''
            else
              (cur ++ (if keepends then [c] else []))
                :: splitlines_from keepends [] s'
        | [] => [cur ++ (if keepends then [c] else [])]
        end
      else splitlines_from keepends (cur ++ [c]) s'
  end.

Definition splitlines (keepends : bool) (s : str) : list str :=
  splitlines_from keepends [] s.

(** [s.split(maxsplit=1)]: at most one cut, at the first run of whitespace. *)
Definition split_maxsplit1 (s : str) : list str :=
  match drop_while is_space s with
  | [] => []
  | c :: s1 =>
      let word := take_while (fun x => negb (is_space x)) (c :: s1) in
      match drop_while is_space
              (drop_while (fun x => negb (is_space x)) (c :: s1)) with
      | [] => [word]
      | d :: s2 => [word; d :: s2]
      end
  end.

(** [s.split(":", 1)] for an [s] that contains a colon: the text before the
    first colon and the text after it. *)
Fixpoint split_colon1 (s : str) : str * str :=
  match s with
  | [] => ([], [])
  | c :: s' =>
      if c =? COLON then ([], s')
      else let '(k, v) := split_colon1 s' in (c :: k, v)
  end.

(** [":" in s] *)
Definition has_colon (s : str) : bool := existsb (N.eqb COLON) s.

(** ** Reserved tokens *)

Definition INCLUDE : str := Eval cbv in lit "#:section".
Definition IF : str := Eval cbv in lit "#:if".
Definition ELSE : str := Eval cbv in lit "#:else".
Definition ENDIF : str := Eval cbv in lit "#:endif".

Definition MANIFEST_START : str := Eval cbv in lit "0o ---".
Definition MANIFEST_END : str := Eval cbv in lit "--- o0".

(** ** Manifest *)

(** The loop of [Manifest.parse] that collects the candidate lines. *)
Fixpoint collect (inside : bool) (lines : list str) (todo : list str) : list str :=
  match todo with
  | [] => lines
  | line :: todo' =>
      let stripped := strip line in
      if bool_decide (stripped = MANIFEST_START) then collect true lines todo'
      else if bool_decide (stripped = MANIFEST_END) then lines
      else if inside then collect inside (lines ++ [line]) todo'
      else collect inside lines todo'
  end.

(** The loop of [Manifest.parse] that fills [manifest.data]. *)
Fixpoint fill (data : gmap str str) (lines : list str) : gmap str str :=
  match lines with
  | [] => data
  | line :: lines' =>
      if has_colon line then
        let '(k, v) := split_colon1 line in
        fill (<[strip k := strip v]> data) lines'
      else fill data lines'
  end.

Definition Manifest_parse (text : str) : gmap str str :=
  fill ∅ (collect false [] (splitlines false text)).

(** The loop of [CodeAssembler.strip_manifest]. *)
Fixpoint strip_loop (inside : bool) (output : list str) (todo : list str) : list str :=
  match todo with
  | [] => output
  | line :: todo' =>
      let stripped := strip line in
      if bool_decide (stripped = MANIFEST_START) then strip_loop true output todo'
      else if bool_decide (stripped = MANIFEST_END) then strip_loop false output todo'
      else if negb inside then strip_loop inside (output ++ [line]) todo'
      else strip_loop inside output todo'
  end.

Definition strip_manifest (text : str) : str :=
  concat (strip_loop false [] (splitlines true text)).

(** ** Assembler *)

(** What a build can raise: the two [RuntimeError]s of the conditionals, the
    [RuntimeError] of the visited check, the failure of [read_text], and the
    [IndexError] of [stripped.split(maxsplit=1)[1]]. *)
Inductive error : Type :=
  | CircularInclude (file : str)
  | UnmatchedElse
  | UnmatchedEndif
  | ReadError (file : str)
  | IndexError.

(** The file tree under [self.root]: [resolve file] is
    [(self.root / file).resolve()], [files] maps a canonical path to what
    [read_text] returns for it. *)
Record FileTree : Type := {
  resolve : str -> str;
  files : gmap str str
}.

(** A call either returns or raises; [self.visited] is a shared mutable set,
    so both carry its value on exit. *)
Inductive outcome (A : Type) : Type :=
  | Return (visited : gset str) (a : A)
  | Raise (visited : gset str) (e : error).
Arguments Return {A} visited a.
Arguments Raise {A} visited e.

Definition visited_of {A} (o : outcome A) : gset str :=
  match o with Return v _ => v | Raise v _ => v end.

(** The locals of the loop of [build]. The stack grows at its end, as the
    Python list does. *)
Record loop_state : Type := {
  skip_stack : list bool;
  output : list str
}.

(** [any(l)] *)
Definition any (l : list bool) : bool := existsb id l.

(** A recursive call [self.build(path)]; [None] stands for a call that has
    not returned within the recursion depth allowed. *)
Definition builder : Type := str -> gset str -> option (outcome str).

Section Loop.
Variable bld : builder.
Variable defines : gset str.

Definition do_include (visited : gset str) (st : loop_state) (stripped : str)
  : option (outcome loop_state) :=
  if negb (any (skip_stack st)) then
    match split_maxsplit1 stripped !! 1%nat with
    | None => Some (Raise visited IndexError)
    | Some include_path =>
        match bld include_path visited with
        | None => None
        | Some (Raise visited' e) => Some (Raise visited' e)
        | Some (Return visited' text) =>
            Some (Return visited'
                    {| skip_stack := skip_stack st;
                       output := output st ++ [text] |})
        end
    end
  else Some (Return visited st).

Definition do_if (visited : gset str) (st : loop_state) (stripped : str)
  : outcome loop_state :=
  match split_maxsplit1 stripped !! 1%nat with
  | None => Raise visited IndexError
  | Some condition =>
      Return visited
        {| skip_stack := skip_stack st ++ [bool_decide (condition ∉ defines)];
           output := output st |}
  end.

Definition do_else (visited : gset str) (st : loop_state)
  : outcome loop_state :=
  match last (skip_stack st) with
  | None => Raise visited UnmatchedElse
  | Some top =>
      let parent_skipping := any (removelast (skip_stack st)) in
      if negb parent_skipping then
        Return visited
          {| skip_stack :=
               <[(length (skip_stack st) - 1)%nat := negb top]> (skip_stack st);
             output := output st |}
      else Return visited st
  end.

Definition do_endif (visited : gset str) (st : loop_state)
  : outcome loop_state :=
  match skip_stack st with
  | [] => Raise visited UnmatchedEndif
  | _ :: _ =>
      Return visited
        {| skip_stack := removelast (skip_stack st); output := output st |}
  end.

Definition do_plain (st : loop_state) (line : str) : loop_state :=
  if negb (any (skip_stack st)) then
    {| skip_stack := skip_stack st; output := output st ++ [line] |}
  else st.

(** One iteration of [for line in text.splitlines(True)]. *)
Definition step (visited : gset str) (st : loop_state) (line : str)
  : option (outcome loop_state) :=
  let stripped := strip line in
  if startswith stripped INCLUDE then do_include visited st stripped
  else if startswith stripped IF then Some (do_if visited st stripped)
  else if startswith stripped ELSE then Some (do_else visited st)
  else if startswith stripped ENDIF then Some (do_endif visited st)
  else Some (Return visited (do_plain st line)).

(** The loop: a raise leaves it at once. *)
Fixpoint process_lines (visited : gset str) (st : loop_state)
    (lines : list str) : option (outcome loop_state) :=
  match lines with
  | [] => Some (Return visited st)
  | line :: lines' =>
      match step visited st line with
      | None => None
      | Some (Raise visited' e) => Some (Raise visited' e)
      | Some (Return visited' st') => process_lines visited' st' lines'
      end
  end.
End Loop.

Definition init_state : loop_state := {| skip_stack := []; output := [] |}.

(** The body of [CodeAssembler.build]; [bld] is [self.build] where the body
    calls it. *)
Definition build_body (bld : builder) (env : FileTree) (defines : gset str)
    (file : str) (visited : gset str) : option (outcome str) :=
  let file := resolve env file in
  if bool_decide (file ∈ visited) then
    Some (Raise visited (CircularInclude file))
  else
    let visited := {[file]} ∪ visited in
    match files env !! file with
    | None => Some (Raise visited (ReadError file))
    | Some text =>
        let text := strip_manifest text in
        match process_lines bld defines visited init_state
                (splitlines true text) with
        | None => None
        | Some (Raise visited' e) => Some (Raise visited' e)
        | Some (Return visited' st) =>
            Some (Return visited' (concat (output st)))
        end
    end.

(** [CodeAssembler.build], with the depth of the recursion counted down. *)
Fixpoint build_fuel (fuel : nat) (env : FileTree) (defines : gset str)
    {struct fuel} : builder :=
  match fuel with
  | O => fun _ _ => None
  | S fuel' => build_body (build_fuel fuel' env defines) env defines
  end.

(** Every level of the recursion that goes on to recurse has added a new
    readable file to the visited set, so one more level than there are
    files is always enough (see [build_fuel_enough]). *)
Definition build (env : FileTree) (defines : gset str) (file : str)
    (visited : gset str) : option (outcome str) :=
  build_fuel (S (size (files env))) env defines file visited.

(** ** The orchestrator's build step *)

(** The fields of a [CodeAssembler] that change or are read during a build. *)
Record CodeAssembler : Type := {
  visited : gset str;
  defines : gset str;
  manifest : gmap str str
}.

Definition load_manifest (env : FileTree) (a : CodeAssembler) (file : str)
  : error + CodeAssembler :=
  let path := resolve env file in
  match files env !! path with
  | None => inl (ReadError path)
  | Some text =>
      inr {| visited := visited a; defines := defines a;
             manifest := Manifest_parse text |}
  end.

(** [run_build] up to the computation of [result]; what is written or run
    afterwards is that text. *)
Definition run_build (env : FileTree) (a : CodeAssembler) (input_file : str)
  : option (CodeAssembler * (error + str)) :=
  let a := {| visited := ∅; defines := defines a; manifest := manifest a |} in
  match load_manifest env a input_file with
  | inl e => Some (a, inl e)
  | inr a =>
      let manifest := manifest a in
      match build env (defines a) input_file (visited a) with
      | None => None
      | Some (Raise visited' e) =>
          Some ({| visited := visited'; defines := defines a;
                   manifest := manifest |}, inl e)
      | Some (Return visited' result) =>
          let result :=
            match manifest !! lit "shebang" with
            | Some (c :: shebang) =>
                lit "#!" ++ (c :: shebang) ++ [LF] ++ result
            | _ => result
            end in
          Some ({| visited := visited'; defines := defines a;
                   manifest := manifest |}, inr result)
      end
  end.

(** ** Sample inputs *)

Definition lines_text (ls : list string) : str :=
  concat (map (fun l => lit l ++ [LF]) ls).

(** A file tree whose paths are already canonical. *)
Definition tree (l : list (string * str)) : FileTree :=
  {| resolve := fun f => f;
     files := list_to_map (map (fun '(name, text) => (lit name, text)) l) |}.

Definition exA : str :=
  lines_text ["#:if DEBUG"; "debug_line"; "#:else"; "release_line"; "#:endif"]%string.

Definition exB : str :=
  lines_text ["0o ---"; "shebang: /usr/bin/env node"; "artifact-name: out.js";
              "--- o0"; "code"]%string.

(** ** Notions the properties are stated with *)

Definition no_lb (s : str) : Prop := Forall (fun c => is_linebreak c = false) s.

(** A line terminator: one line-boundary character, or CR LF. *)
Definition is_term (t : str) : Prop :=
  (exists c, t = [c] /\ is_linebreak c = true) \/ t = [CR; LF].

(** The shape of what [splitlines(True)] returns, and of any selection of
    its lines: every line but the last ends with a terminator. *)
Inductive lines_ok : list str -> Prop :=
  | ok_nil : lines_ok []
  | ok_last body : body <> [] -> no_lb body -> lines_ok [body]
  | ok_cons body term ls :
      no_lb body -> is_term term -> lines_ok ls ->
      lines_ok ((body ++ term) :: ls).

(** The lines [strip_manifest] keeps, in order. *)
Fixpoint keep (inside : bool) (todo : list str) : list str :=
  match todo with
  | [] => []
  | line :: todo' =>
      if bool_decide (strip line = MANIFEST_START) then keep true todo'
      else if bool_decide (strip line = MANIFEST_END) then keep false todo'
      else if inside then keep inside todo'
      else line :: keep inside todo'
  end.

Definition is_sentinel (line : str) : Prop :=
  strip line = MANIFEST_START \/ strip line = MANIFEST_END.

(** A line that is none of the four directives. *)
Definition is_plain (line : str) : Prop :=
  startswith (strip line) INCLUDE = false /\
  startswith (strip line) IF = false /\
  startswith (strip line) ELSE = false /\
  startswith (strip line) ENDIF = false.

(** An if-line whose argument is [sym]. *)
Definition tests (line sym : str) : Prop :=
  startswith (strip line) IF = true /\
  split_maxsplit1 (strip line) !! 1%nat = Some sym.

(** [body defines lines kept]: [lines] is a sequence of plain lines and of
    well-nested conditional regions, and [kept] is what the specification
    says remains of it: the directive lines are gone and of each region the
    lines of one branch remain, the first branch when the symbol is
    defined, the second (or nothing, without an else) when it is not. *)
Inductive body (defines : gset str) : list str -> list str -> Prop :=
  | body_nil : body defines [] []
  | body_plain l ls k :
      is_plain l -> body defines ls k -> body defines (l :: ls) (l :: k)
  | body_if_else i sym b1 k1 e b2 k2 d ls k :
      tests i sym ->
      startswith (strip e) ELSE = true ->
      startswith (strip d) ENDIF = true ->
      body defines b1 k1 -> body defines b2 k2 -> body defines ls k ->
      body defines (i :: b1 ++ e :: b2 ++ d :: ls)
        ((if bool_decide (sym ∈ defines) then k1 else k2) ++ k)
  | body_if i sym b1 k1 d ls k :
      tests i sym ->
      startswith (strip d) ENDIF = true ->
      body defines b1 k1 -> body defines ls k ->
      body defines (i :: b1 ++ d :: ls)
        ((if bool_decide (sym ∈ defines) then k1 else []) ++ k).

(** A call never removes a path from the visited set. *)
Definition grows (bld : builder) : Prop :=
  forall file visited o, bld file visited = Some o -> visited ⊆ visited_of o.

(** ** More sample inputs *)

(** A region between two plain lines. *)
Definition exA_between : str :=
  lines_text ["first"; "#:if DEBUG"; "debug_line"; "#:else"; "release_line";
              "#:endif"; "last"]%string.

(** File a includes b, and b includes a. *)
Definition cycle_tree : FileTree :=
  tree [("a", lines_text ["#:section b"]); ("b", lines_text ["#:section a"])]%string.

(** File a includes b twice; b includes nothing. *)
Definition twice_tree : FileTree :=
  tree [("a", lines_text ["#:section b"; "#:section b"]);
        ("b", lines_text ["x"])]%string.

(** A manifest with a repeated key, a line without colon and a value that
    itself holds a colon. *)
Definition exDup : str :=
  lines_text ["0o ---"; "k: 1"; "no colon here"; " k :a:b "]%string.

Definition open_if_tree : FileTree :=
  tree [("a", lines_text ["kept"; "#:if X"; "dropped"; "#:section nowhere"])]%string.

Definition open_if_shown_tree : FileTree :=
  tree [("a", lines_text ["kept"; "#:if X"; "shown"])]%string.

Definition dangling_tree : FileTree :=
  tree [("a", lines_text ["x"; "#:else"]);
        ("b", lines_text ["#:if X"; "#:endif"; "#:endif"])]%string.

Definition shebang_tree : FileTree :=
  tree [("index.obun", exB); ("lib", lines_text ["x"])]%string.

Definition bare_tree : FileTree :=
  tree [("a", lines_text ["x"; "#:if X"; "  #:if  "; "y"]);
        ("b", lines_text ["x"; "#:section"; "y"]);
        ("c", lines_text ["#:endif"; "#:if"])]%string.

Definition prefix_tree : FileTree :=
  tree [("a", lines_text ["#:sectionX b"; "#:ifdef X"; "in"; "#:elsewhere";
                          "out"; "#:endiffy"]);
        ("b", lines_text ["from b"])]%string.

(** ** The rest of [run_build]: where the text goes *)






(** ** Further notions *)

(** The file tree with the manifest block of every file removed. *)
Definition strip_tree (env : FileTree) : FileTree :=
  {| resolve := resolve env; files := strip_manifest <$> files env |}.

(** How many of the lines begin, once trimmed, with the token. *)
Fixpoint count_token (token : str) (lines : list str) : nat :=
  match lines with
  | [] => O
  | line :: lines' =>
      if startswith (strip line) token then S (count_token token lines')
      else count_token token lines'
  end.

(** A line that neither opens, alters nor closes a conditional. *)
Definition unconditional (line : str) : Prop :=
  startswith (strip line) IF = false /\
  startswith (strip line) ELSE = false /\
  startswith (strip line) ENDIF = false.

(** [nest else_ok lines]: every if-line of [lines] has its argument and its
    endif-line within [lines], and every endif-line closes an if-line of
    [lines]; else-lines stand inside such a pair, or anywhere when
    [else_ok]. Any other line, an include too, may stand anywhere. *)
Inductive nest : bool -> list str -> Prop :=
  | nest_nil else_ok : nest else_ok []
  | nest_line else_ok l ls :
      unconditional l -> nest else_ok ls -> nest else_ok (l :: ls)
  | nest_else e ls :
      startswith (strip e) ELSE = true -> nest true ls -> nest true (e :: ls)
  | nest_if else_ok i sym b d ls :
      tests i sym -> startswith (strip d) ENDIF = true ->
      nest true b -> nest else_ok ls ->
      nest else_ok (i :: b ++ d :: ls).

(** ** Sample inputs for the further properties *)

Definition two_blocks : str :=
  lines_text ["0o ---"; "a: 1"; "--- o0"; "code"; "0o ---"; "b: 2"; "--- o0";
              "more"]%string.


Definition include_tree : FileTree :=
  tree [("main", lines_text ["top"; "  #:section  part"; "bottom"]);
        ("part", lines_text ["0o ---"; "shebang: ignored"; "--- o0"; "inner"]);
        ("bad", lines_text ["top"; "#:section missing"; "bottom"]);
        ("self", lines_text ["top"; "#:section self"])]%string.

(** A text with an empty line and an unterminated last line. *)
Definition loose_text : str := lit "# :if x" ++ [LF; LF] ++ lit "  tail".

Definition skipped_block : list str :=
  [lit "#:if X" ++ [LF]; lit "a" ++ [LF]; lit "#:section missing" ++ [LF];
   lit "#:if Y" ++ [LF]; lit "#:else" ++ [LF]; lit "#:else" ++ [LF];
   lit "#:endif" ++ [LF]; lit "#:endif" ++ [LF]].

(** * Properties *)

(** ** Characters and the string primitives *)

Ltac char_facts :=
  rewrite ?orb_true_iff, ?andb_true_iff, ?orb_false_iff, ?andb_false_iff,
    ?N.leb_le, ?N.leb_gt, ?N.eqb_eq, ?N.eqb_neq in *.

Lemma is_linebreak_space c : is_linebreak c = true -> is_space c = true.
Proof. unfold is_linebreak, is_space. char_facts. lia. Qed.

Lemma startswith_spec s p : startswith s p = true <-> exists t, s = p ++ t.
Proof.
  revert s. induction p as [|a p IH]; intros s; simpl.
  - split; [intros _; by exists s | intros _; reflexivity].
  - destruct s as [|c s].
    + split; [discriminate | intros [t Ht]; discriminate].
    + rewrite andb_true_iff, N.eqb_eq, IH. split.
      * intros [-> [t ->]]. eauto.
      * intros [t Ht]. injection Ht as -> ->. eauto.
Qed.

Lemma startswith_app p t : startswith (p ++ t) p = true.
Proof. apply startswith_spec. eauto. Qed.

Lemma drop_while_app_all p s t :
  Forall (fun c => p c = true) s -> drop_while p (s ++ t) = drop_while p t.
Proof. induction 1 as [|c s Hc _ IH]; simpl; [done | by rewrite Hc]. Qed.

Lemma drop_while_none p c s : p c = false -> drop_while p (c :: s) = c :: s.
Proof. simpl. by intros ->. Qed.

Lemma take_while_app_stop p s c t :
  Forall (fun x => p x = true) s -> p c = false ->
  take_while p (s ++ c :: t) = s.
Proof.
  intros Hs Hc. induction Hs as [|x s Hx _ IH]; simpl.
  - by rewrite Hc.
  - by rewrite Hx, IH.
Qed.

Lemma drop_while_app_stop p s c t :
  Forall (fun x => p x = true) s -> p c = false ->
  drop_while p (s ++ c :: t) = c :: t.
Proof.
  intros Hs Hc. rewrite drop_while_app_all by done. by apply drop_while_none.
Qed.

(** Whitespace at the end of a text does not change what [strip] returns. *)
Lemma strip_app_space s t :
  Forall (fun c => is_space c = true) t -> strip (s ++ t) = strip s.
Proof.
  intros Ht. unfold strip.
  destruct (drop_while is_space s) as [|c s1] eqn:Hs.
  - assert (Hall : forall u, drop_while is_space u = [] ->
                     Forall (fun c => is_space c = true) u).
    { induction u as [|x u IH]; simpl; [constructor|].
      destruct (is_space x) eqn:Hx; [|discriminate]. auto. }
    rewrite drop_while_app_all by auto.
    assert (Hnil : drop_while is_space t = []).
    { clear -Ht. induction Ht as [|x t Hx _ IH]; simpl; [done | by rewrite Hx]. }
    by rewrite Hnil.
  - assert (Hsplit : exists u, s = u ++ c :: s1 /\
                       Forall (fun x => is_space x = true) u /\ is_space c = false).
    { clear -Hs. revert Hs. induction s as [|x s IH]; simpl; [discriminate|].
      destruct (is_space x) eqn:Hx.
      - intros H. destruct (IH H) as (u & -> & Hu & Hc).
        exists (x :: u). auto.
      - intros [= -> ->]. exists []. auto. }
    destruct Hsplit as (u & -> & Hu & Hc).
    rewrite <- app_assoc. simpl.
    rewrite drop_while_app_stop by done.
    change (c :: s1 ++ t) with ((c :: s1) ++ t).
    rewrite rev_app_distr.
    rewrite drop_while_app_all; [done |].
    by apply List.Forall_rev.
Qed.

(** A text that neither starts nor ends with whitespace is its own [strip]. *)
Lemma strip_id c s d :
  is_space c = false -> is_space d = false ->
  strip (c :: s ++ [d]) = c :: s ++ [d].
Proof.
  intros Hc Hd. unfold strip. rewrite drop_while_none by done.
  change (c :: s ++ [d]) with ((c :: s) ++ [d]).
  rewrite (rev_app_distr (c :: s) [d]).
  change (rev [d] ++ rev (c :: s)) with (d :: rev (c :: s)).
  rewrite drop_while_none by done.
  change (d :: rev (c :: s)) with (rev [d] ++ rev (c :: s)).
  by rewrite <- rev_app_distr, rev_involutive.
Qed.

Lemma strip_id1 c : is_space c = false -> strip [c] = [c].
Proof. intros Hc. unfold strip. simpl. rewrite Hc. simpl. by rewrite Hc. Qed.

(** ** Lines *)

Lemma str_length_ind (P : str -> Prop) :
  (forall s, (forall t, (length t < length s)%nat -> P t) -> P s) ->
  forall s, P s.
Proof.
  intros H s. remember (length s) as n eqn:Hn. revert s Hn.
  induction n as [n IH] using lt_wf_ind. intros s ->.
  apply H. intros t Ht. by apply (IH (length t)).
Qed.

Lemma is_term_space t : is_term t -> Forall (fun c => is_space c = true) t.
Proof.
  intros [(c & -> & Hc) | ->].
  - repeat constructor. by apply is_linebreak_space.
  - by repeat constructor.
Qed.

Lemma splitlines_from_body k cur body rest :
  no_lb body ->
  splitlines_from k cur (body ++ rest) = splitlines_from k (cur ++ body) rest.
Proof.
  intros Hb. revert cur. induction Hb as [|c body Hc _ IH]; intros cur; simpl.
  - by rewrite app_nil_r.
  - rewrite Hc, IH. by rewrite <- app_assoc.
Qed.

Lemma splitlines_from_crlf k cur rest :
  splitlines_from k cur (CR :: LF :: rest)
  = (cur ++ (if k then [CR; LF] else [])) :: splitlines_from k [] rest.
Proof. reflexivity. Qed.

Lemma splitlines_from_cons k cur c s' :
  splitlines_from k cur (c :: s')
  = if is_linebreak c then
      match s' with
      | c' :: s'' =>
          if (c =? CR) && (c' =? LF) then
            (cur ++ (if k then [c; c'] else [])) :: splitlines_from k [] s''
          else (cur ++ (if k then [c] else [])) :: splitlines_from k [] s'
      | [] => [cur ++ (if k then [c] else [])]
      end
    else splitlines_from k (cur ++ [c]) s'.
Proof. reflexivity. Qed.

Lemma splitlines_keep_concat s cur :
  concat (splitlines_from true cur s) = cur ++ s.
Proof.
  revert cur. induction s as [s IH] using str_length_ind. intros cur.
  destruct s as [|c s'].
  - destruct cur; simpl; by rewrite ?app_nil_r.
  - rewrite splitlines_from_cons. destruct (is_linebreak c).
    + destruct s' as [|c' s''].
      * simpl. by rewrite app_nil_r.
      * destruct ((c =? CR) && (c' =? LF)); cbn [concat].
        -- rewrite (IH s'') by (simpl; lia). by rewrite <- app_assoc.
        -- rewrite (IH (c' :: s'')) by (simpl; lia). by rewrite <- app_assoc.
    + rewrite (IH s') by (simpl; lia). by rewrite <- app_assoc.
Qed.

Lemma splitlines_keep_ok s cur :
  no_lb cur -> lines_ok (splitlines_from true cur s).
Proof.
  revert cur. induction s as [s IH] using str_length_ind. intros cur Hcur.
  destruct s as [|c s'].
  - simpl. destruct cur; [constructor | by constructor].
  - rewrite splitlines_from_cons. destruct (is_linebreak c) eqn:Hc.
    + destruct s' as [|c' s''].
      * apply ok_cons; [done | left; eauto | constructor].
      * destruct ((c =? CR) && (c' =? LF)) eqn:Hcrlf.
        -- apply andb_true_iff in Hcrlf as [->%N.eqb_eq ->%N.eqb_eq].
           apply ok_cons; [done | by right |].
           apply IH; [simpl; lia | constructor].
        -- apply ok_cons; [done | left; eauto |].
           apply IH; [simpl; lia | constructor].
    + apply IH; [simpl; lia |].
      apply Forall_app. split; [done | by repeat constructor].
Qed.

(** Splitting again a text made of well-shaped lines only ever glues a line
    that ends in CR to a following line that is a bare LF, so a property of
    lines that [strip] decides survives. *)
Lemma resplit_Forall (P : str -> Prop) ls :
  (forall l l', strip l = strip l' -> P l -> P l') ->
  lines_ok ls -> Forall P ls -> Forall P (splitlines true (concat ls)).
Proof.
  intros HP Hok. unfold splitlines.
  induction Hok as [|body Hne Hb|body term ls Hb Ht Hok IH]; intros HF.
  - constructor.
  - cbn [concat]. rewrite app_nil_r.
    rewrite <- (app_nil_r body) at 1.
    rewrite splitlines_from_body by done. simpl.
    destruct body; [done | done].
  - apply Forall_cons in HF as [Hl HF]. specialize (IH HF).
    cbn [concat]. rewrite <- app_assoc, splitlines_from_body by done.
    rewrite app_nil_l.
    destruct Ht as [(c & -> & Hc) | ->].
    + change ([c] ++ concat ls) with (c :: concat ls).
      rewrite splitlines_from_cons, Hc.
      destruct (concat ls) as [|c' r] eqn:Hcat.
      * by repeat constructor.
      * destruct ((c =? CR) && (c' =? LF)) eqn:Hcrlf.
        -- apply andb_true_iff in Hcrlf as [->%N.eqb_eq ->%N.eqb_eq].
           constructor.
           ++ apply (HP (body ++ [CR])); [|done].
              rewrite !strip_app_space; [done | by repeat constructor..].
           ++ rewrite splitlines_from_cons in IH.
              change (is_linebreak LF) with true in IH. cbv iota in IH.
              destruct r; [constructor |].
              change ((LF =? CR) && (n =? LF)) with false in IH. cbv iota in IH.
              by apply Forall_cons in IH as [_ IH].
        -- by constructor.
    + change ([CR; LF] ++ concat ls) with (CR :: LF :: concat ls).
      rewrite splitlines_from_crlf. by constructor.
Qed.

(** ** Manifest stripping *)

Lemma strip_loop_keep inside out todo :
  strip_loop inside out todo = out ++ keep inside todo.
Proof.
  revert inside out. induction todo as [|line todo IH]; intros inside out; simpl.
  - by rewrite app_nil_r.
  - repeat case_bool_decide; rewrite ?IH; try done.
    destruct inside; simpl; [done | by rewrite <- app_assoc].
Qed.

Lemma keep_sublist inside todo : keep inside todo `sublist_of` todo.
Proof.
  revert inside. induction todo as [|line todo IH]; intros inside; simpl.
  - constructor.
  - repeat case_bool_decide; try (by apply sublist_cons).
    destruct inside; [by apply sublist_cons | by apply sublist_skip].
Qed.

Lemma keep_no_sentinel inside todo :
  Forall (fun l => ~ is_sentinel l) (keep inside todo).
Proof.
  revert inside. induction todo as [|line todo IH]; intros inside; simpl.
  - constructor.
  - repeat case_bool_decide; try done.
    destruct inside; [done |]. constructor; [|done].
    unfold is_sentinel. tauto.
Qed.

Lemma keep_all todo :
  Forall (fun l => ~ is_sentinel l) todo -> keep false todo = todo.
Proof.
  induction 1 as [|line todo Hl _ IH]; simpl; [done |].
  unfold is_sentinel in Hl.
  repeat case_bool_decide; try tauto. by rewrite IH.
Qed.

Lemma keep_ok inside todo : lines_ok todo -> lines_ok (keep inside todo).
Proof.
  intros Hok. revert inside.
  induction Hok as [|body Hne Hb|body term ls Hb Ht Hok IH]; intros inside; simpl.
  - constructor.
  - repeat case_bool_decide; try constructor.
    destruct inside; by constructor.
  - repeat case_bool_decide; try done.
    destruct inside; [done | by constructor].
Qed.

Lemma strip_manifest_keep text :
  strip_manifest text = concat (keep false (splitlines true text)).
Proof. unfold strip_manifest. by rewrite strip_loop_keep. Qed.

Lemma strip_manifest_idem text :
  strip_manifest (strip_manifest text) = strip_manifest text.
Proof.
  rewrite !strip_manifest_keep.
  set (K := keep false (splitlines true text)).
  rewrite keep_all.
  - apply (splitlines_keep_concat _ []).
  - apply (resplit_Forall (fun l => ~ is_sentinel l)).
    + unfold is_sentinel. intros l l' Heq. by rewrite Heq.
    + apply keep_ok, splitlines_keep_ok. constructor.
    + apply keep_no_sentinel.
Qed.

(** ** The loop *)

Section LoopFacts.
Context (defines : gset str).

Lemma process_lines_app bld visited st pre rest :
  process_lines bld defines visited st (pre ++ rest)
  = match process_lines bld defines visited st pre with
    | Some (Return visited' st') =>
        process_lines bld defines visited' st' rest
    | o => o
    end.
Proof.
  revert visited st. induction pre as [|l pre IH]; intros visited st; simpl.
  - done.
  - destruct (step bld defines visited st l) as [[v' st'|v' e]|]; auto.
Qed.

Lemma step_grows bld visited st line o :
  grows bld -> step bld defines visited st line = Some o ->
  visited ⊆ visited_of o.
Proof.
  intros Hg. unfold step, do_include, do_if, do_else, do_endif.
  repeat case_match; intros [= <-]; simpl; try done.
  all: match goal with H : _ = Some _ |- _ => apply Hg in H end; done.
Qed.

Lemma process_lines_grows bld visited st lines o :
  grows bld -> process_lines bld defines visited st lines = Some o ->
  visited ⊆ visited_of o.
Proof.
  intros Hg. revert visited st.
  induction lines as [|l lines IH]; intros visited st; simpl.
  - by intros [= <-].
  - destruct (step bld defines visited st l) as [[v' st'|v' e]|] eqn:Hs;
      [| |done].
    + intros H. apply IH in H. apply step_grows in Hs; [|done].
      simpl in Hs. set_solver.
    + intros [= <-]. by apply step_grows in Hs.
Qed.

(** Two handlers that agree on every visited set the loop can reach give
    the same loop. *)
Lemma process_lines_ext bld1 bld2 v0 visited st lines :
  grows bld1 ->
  (forall file v, v0 ⊆ v -> bld1 file v = bld2 file v) ->
  v0 ⊆ visited ->
  process_lines bld1 defines visited st lines
  = process_lines bld2 defines visited st lines.
Proof.
  intros Hg Heq. revert visited st.
  induction lines as [|l lines IH]; intros visited st Hv; simpl; [done |].
  assert (Hstep : step bld1 defines visited st l = step bld2 defines visited st l).
  { unfold step, do_include.
    destruct (startswith (strip l) INCLUDE); [|done].
    destruct (negb (any (skip_stack st))); [|done].
    destruct (split_maxsplit1 (strip l) !! 1%nat); [|done].
    by rewrite (Heq _ visited Hv). }
  rewrite <- Hstep.
  destruct (step bld1 defines visited st l) as [[v' st'|v' e]|] eqn:Hs; try done.
  apply IH. apply step_grows in Hs; [|done]. simpl in Hs. set_solver.
Qed.

(** A handler that returns wherever another one does gives a loop that
    returns wherever the other loop does. *)
Lemma step_refine bld1 bld2 visited st line o :
  (forall file v r, bld1 file v = Some r -> bld2 file v = Some r) ->
  step bld1 defines visited st line = Some o ->
  step bld2 defines visited st line = Some o.
Proof.
  intros Href. unfold step, do_include.
  destruct (startswith (strip line) INCLUDE); [|done].
  destruct (negb (any (skip_stack st))); [|done].
  destruct (split_maxsplit1 (strip line) !! 1%nat) as [file|]; [|done].
  destruct (bld1 file visited) as [r|] eqn:Hb; [|done].
  by rewrite (Href _ _ _ Hb).
Qed.

Lemma process_lines_refine bld1 bld2 visited st lines o :
  (forall file v r, bld1 file v = Some r -> bld2 file v = Some r) ->
  process_lines bld1 defines visited st lines = Some o ->
  process_lines bld2 defines visited st lines = Some o.
Proof.
  intros Href. revert visited st.
  induction lines as [|l lines IH]; intros visited st; simpl; [done |].
  destruct (step bld1 defines visited st l) as [q|] eqn:Hs; [|done].
  rewrite (step_refine _ _ _ _ _ _ Href Hs). destruct q; auto.
Qed.

(** The loop returns or raises as soon as every call it can make does. *)
Lemma process_lines_is_Some bld v0 visited st lines :
  grows bld ->
  (forall file v, v0 ⊆ v -> is_Some (bld file v)) ->
  v0 ⊆ visited ->
  is_Some (process_lines bld defines visited st lines).
Proof.
  intros Hg Hsome. revert visited st.
  induction lines as [|l lines IH]; intros visited st Hv; simpl; [by eexists |].
  destruct (step bld defines visited st l) as [[v' st'|v' e]|] eqn:Hs.
  - apply IH. apply step_grows in Hs; [|done]. simpl in Hs. set_solver.
  - by eexists.
  - exfalso. revert Hs. unfold step, do_include.
    destruct (startswith (strip l) INCLUDE); [|by repeat case_match].
    destruct (negb (any (skip_stack st))); [|done].
    destruct (split_maxsplit1 (strip l) !! 1%nat) as [file|]; [|done].
    destruct (Hsome file visited Hv) as [o Ho]. rewrite Ho. by destruct o.
Qed.
End LoopFacts.

(** ** Termination of [build] *)

(** Entering a readable file that was not visited leaves fewer files to
    visit. *)
Lemma shrinks (p : str) (d v v' : gset str) :
  p ∈ d -> {[p]} ∪ v ⊆ v' -> p ∉ v -> d ∖ v' ⊂ d ∖ v.
Proof.
  intros Hd Hv Hp. split.
  - intros x [Hx Hn]%elem_of_difference. apply elem_of_difference.
    split; [done |]. intros Hxv. apply Hn, Hv. by apply elem_of_union_r.
  - intros Hsub.
    assert (Hin : p ∈ d ∖ v') by (by apply Hsub, elem_of_difference).
    apply elem_of_difference in Hin as [_ Hn].
    apply Hn, Hv, elem_of_union_l. by apply elem_of_singleton.
Qed.

Lemma shrinks_all (p : str) (d v v' : gset str) :
  p ∈ d -> {[p]} ∪ v ⊆ v' -> d ∖ v' ⊂ d.
Proof.
  intros Hd Hv. split.
  - by intros x [Hx _]%elem_of_difference.
  - intros Hsub. apply Hsub in Hd. apply elem_of_difference in Hd as [_ Hn].
    apply Hn, Hv, elem_of_union_l. by apply elem_of_singleton.
Qed.

Section BuildFacts.
Context (env : FileTree) (defines : gset str).

Lemma build_body_grows bld : grows bld -> grows (build_body bld env defines).
Proof.
  intros Hg file visited o. unfold build_body.
  case_bool_decide; [by intros [= <-] |].
  destruct (files env !! resolve env file) as [text|]; [|intros [= <-]; set_solver].
  destruct (process_lines _ _ _ _ _) as [[v' st'|v' e]|] eqn:Hp; [| |done].
  all: intros [= <-]; apply process_lines_grows in Hp; [|done];
    simpl in *; set_solver.
Qed.

Lemma build_fuel_grows fuel : grows (build_fuel fuel env defines).
Proof.
  induction fuel as [|n IH]; simpl.
  - by intros file visited o.
  - by apply build_body_grows.
Qed.

(** More depth never changes what a call that finished has returned. *)
Lemma build_fuel_S fuel file visited o :
  build_fuel fuel env defines file visited = Some o ->
  build_fuel (S fuel) env defines file visited = Some o.
Proof.
  revert file visited o. induction fuel as [|n IH]; intros file visited o.
  - done.
  - change (build_fuel (S (S n)) env defines)
      with (build_body (build_fuel (S n) env defines) env defines).
    change (build_fuel (S n) env defines)
      with (build_body (build_fuel n env defines) env defines) at 1.
    unfold build_body.
    case_bool_decide; [done |].
    destruct (files env !! resolve env file) as [text|]; [|done].
    destruct (process_lines (build_fuel n env defines) defines _ _ _)
      as [r|] eqn:Hp; [|done].
    by rewrite (process_lines_refine defines _ _ _ _ _ _ IH Hp).
Qed.

Lemma build_fuel_le n m file visited o :
  (n <= m)%nat ->
  build_fuel n env defines file visited = Some o ->
  build_fuel m env defines file visited = Some o.
Proof. induction 1 as [|m Hle IH]; [done |]. intros Hb. by apply build_fuel_S, IH. Qed.

(** One level more than the readable files not yet visited is enough. *)
Lemma build_fuel_enough fuel file visited :
  (size (dom (files env) ∖ visited) < fuel)%nat ->
  is_Some (build_fuel fuel env defines file visited).
Proof.
  revert file visited. induction fuel as [|n IH]; intros file visited Hsz.
  - lia.
  - cbn [build_fuel]. unfold build_body.
    case_bool_decide as Hin; [by eexists |].
    destruct (files env !! resolve env file) as [text|] eqn:Hf; [|by eexists].
    destruct (process_lines_is_Some defines (build_fuel n env defines)
                ({[resolve env file]} ∪ visited)
                ({[resolve env file]} ∪ visited) init_state
                (splitlines true (strip_manifest text))) as [r Hr].
    + apply build_fuel_grows.
    + intros f v Hv. apply IH.
      assert (Hlt : dom (files env) ∖ v ⊂ dom (files env) ∖ visited).
      { apply (shrinks (resolve env file)); [|done..].
        apply elem_of_dom; eauto. }
      apply subset_size in Hlt. lia.
    + done.
    + rewrite Hr. destruct r; by eexists.
Qed.

(** [build] is total. *)
Lemma build_total file visited :
  is_Some (build env defines file visited).
Proof.
  apply build_fuel_enough.
  assert (Hle : (size (dom (files env) ∖ visited) <= size (dom (files env)))%nat)
    by (apply subseteq_size, subseteq_difference_l; reflexivity).
  rewrite size_dom in Hle. lia.
Qed.

Lemma build_grows : grows (build env defines).
Proof. apply build_fuel_grows. Qed.

(** [build] satisfies the equation of the source: its body, with [build]
    itself at the recursive calls. *)
Lemma build_unfold file visited :
  build env defines file visited
  = build_body (build env defines) env defines file visited.
Proof.
  unfold build at 1. cbn [build_fuel]. unfold build_body.
  case_bool_decide as Hin; [done |].
  destruct (files env !! resolve env file) as [text|] eqn:Hf; [|done].
  rewrite (process_lines_ext defines _ (build env defines)
             ({[resolve env file]} ∪ visited)); [done | | | done].
  - apply build_fuel_grows.
  - intros f v Hv.
    destruct (build_fuel_enough (size (files env)) f v) as [o Ho].
    + assert (Hlt : dom (files env) ∖ v ⊂ dom (files env)).
      { apply (shrinks_all (resolve env file) _ visited); [|done].
        apply elem_of_dom; eauto. }
      apply subset_size in Hlt. rewrite size_dom in Hlt. lia.
    + rewrite Ho. symmetry. by apply build_fuel_S.
Qed.

(** The loop of a file always comes to an end. *)
Lemma process_lines_total visited st lines :
  exists o, process_lines (build env defines) defines visited st lines = Some o.
Proof.
  apply (process_lines_is_Some defines _ visited); [| |done].
  - apply build_grows.
  - intros f v _. apply build_total.
Qed.
End BuildFacts.

(** ** The conditional stack *)

Lemma any_snoc (below : list bool) (top : bool) : any (below ++ [top]) = any below || top.
Proof.
  unfold any. rewrite existsb_app. simpl. by rewrite orb_false_r.
Qed.

Lemma set_top (below : list bool) (top b : bool) :
  <[(length (below ++ [top]) - 1)%nat := b]> (below ++ [top]) = below ++ [b].
Proof.
  rewrite length_app. simpl.
  replace (length below + 1 - 1)%nat with (length below + 0)%nat by lia.
  by rewrite insert_app_r.
Qed.

Lemma nonempty_snoc {A} (l : list A) :
  l <> [] -> exists below top, l = below ++ [top].
Proof.
  intros Hne. destruct (exists_last Hne) as (below & top & ->). eauto.
Qed.

(** ** The reserved tokens exclude one another *)

Lemma if_not_include s :
  startswith s IF = true -> startswith s INCLUDE = false.
Proof. intros [t ->]%startswith_spec. reflexivity. Qed.

Lemma else_not_include s :
  startswith s ELSE = true -> startswith s INCLUDE = false.
Proof. intros [t ->]%startswith_spec. reflexivity. Qed.

Lemma else_not_if s :
  startswith s ELSE = true -> startswith s IF = false.
Proof. intros [t ->]%startswith_spec. reflexivity. Qed.

Lemma endif_not_include s :
  startswith s ENDIF = true -> startswith s INCLUDE = false.
Proof. intros [t ->]%startswith_spec. reflexivity. Qed.

Lemma endif_not_if s :
  startswith s ENDIF = true -> startswith s IF = false.
Proof. intros [t ->]%startswith_spec. reflexivity. Qed.

Lemma endif_not_else s :
  startswith s ENDIF = true -> startswith s ELSE = false.
Proof. intros [t ->]%startswith_spec. reflexivity. Qed.

Section StepFacts.
Context (bld : builder) (defines : gset str).

Lemma step_include visited st line :
  startswith (strip line) INCLUDE = true ->
  step bld defines visited st line = do_include bld visited st (strip line).
Proof. intros H. unfold step. by rewrite H. Qed.

Lemma step_if visited st line :
  startswith (strip line) IF = true ->
  step bld defines visited st line = Some (do_if defines visited st (strip line)).
Proof. intros H. unfold step. by rewrite (if_not_include _ H), H. Qed.

Lemma step_else visited st line :
  startswith (strip line) ELSE = true ->
  step bld defines visited st line = Some (do_else visited st).
Proof.
  intros H. unfold step.
  by rewrite (else_not_include _ H), (else_not_if _ H), H.
Qed.

Lemma step_endif visited st line :
  startswith (strip line) ENDIF = true ->
  step bld defines visited st line = Some (do_endif visited st).
Proof.
  intros H. unfold step.
  by rewrite (endif_not_include _ H), (endif_not_if _ H),
    (endif_not_else _ H), H.
Qed.

Lemma do_else_snoc visited below top out :
  do_else visited {| skip_stack := below ++ [top]; output := out |}
  = Return visited
      {| skip_stack := below ++ [if any below then top else negb top];
         output := out |}.
Proof.
  unfold do_else. cbn [skip_stack output].
  rewrite last_snoc, removelast_last.
  destruct (any below); cbn [negb]; [done |]. by rewrite set_top.
Qed.

Lemma do_endif_snoc visited below top out :
  do_endif visited {| skip_stack := below ++ [top]; output := out |}
  = Return visited {| skip_stack := below; output := out |}.
Proof.
  unfold do_endif. cbn [skip_stack output]. rewrite removelast_last.
  by destruct below.
Qed.
End StepFacts.

(** ** Well-nested conditional regions *)

Lemma body_plain_lines defines ls :
  Forall is_plain ls -> body defines ls ls.
Proof. induction 1; by constructor. Qed.

Section Regions.
Context (bld : builder) (defines : gset str).

Lemma step_plain visited st line :
  is_plain line ->
  step bld defines visited st line = Some (Return visited (do_plain st line)).
Proof. intros (H1 & H2 & H3 & H4). unfold step. by rewrite H1, H2, H3, H4. Qed.

Lemma step_tests visited stack out line sym :
  tests line sym ->
  step bld defines visited {| skip_stack := stack; output := out |} line
  = Some (Return visited
            {| skip_stack := stack ++ [bool_decide (sym ∉ defines)];
               output := out |}).
Proof.
  intros [Hif Harg]. rewrite step_if by done. unfold do_if. by rewrite Harg.
Qed.

(** The loop over a well-nested sequence leaves the stack as it found it
    and appends what the specification keeps, unless an enclosing frame
    is skipping. *)
Lemma body_run lines kept :
  body defines lines kept ->
  forall visited stack out rest,
    process_lines bld defines visited
      {| skip_stack := stack; output := out |} (lines ++ rest)
    = process_lines bld defines visited
        {| skip_stack := stack;
           output := if any stack then out else out ++ kept |} rest.
Proof.
  induction 1 as [|l ls k Hl _ IH
                  |i sym b1 k1 e b2 k2 d ls k Hi He Hd _ IH1 _ IH2 _ IH3
                  |i sym b1 k1 d ls k Hi Hd _ IH1 _ IH3];
    intros visited stack out rest.
  - rewrite app_nil_r. by destruct (any stack).
  - cbn [app process_lines]. rewrite step_plain by done.
    unfold do_plain. cbn [skip_stack output].
    destruct (any stack) eqn:Hany; cbn [negb]; rewrite IH, Hany; [done |].
    by rewrite <- app_assoc.
  - cbn [app process_lines]. rewrite (step_tests _ _ _ _ sym) by done.
    rewrite <- app_assoc, IH1. cbn [app process_lines].
    rewrite step_else, do_else_snoc by done.
    rewrite <- app_assoc, IH2. cbn [app process_lines].
    rewrite step_endif, do_endif_snoc by done.
    rewrite IH3, !any_snoc, bool_decide_not.
    destruct (any stack); cbn [orb negb]; [done |].
    destruct (bool_decide (sym ∈ defines)); cbn [orb negb];
      by rewrite ?app_assoc.
  - cbn [app process_lines]. rewrite (step_tests _ _ _ _ sym) by done.
    rewrite <- app_assoc, IH1. cbn [app process_lines].
    rewrite step_endif, do_endif_snoc by done.
    rewrite IH3, !any_snoc, bool_decide_not.
    destruct (any stack); cbn [orb negb]; [done |].
    destruct (bool_decide (sym ∈ defines)); cbn [orb negb];
      by rewrite ?app_assoc, ?app_nil_r.
Qed.
End Regions.

(** ** Where a build returns and where it raises *)

Section Outcomes.
Context (env : FileTree) (defines : gset str).

Lemma process_lines_raise bld visited st lines v' e :
  process_lines bld defines visited st lines = Some (Raise v' e) <->
  exists pre line rest v1 st1,
    lines = pre ++ line :: rest /\
    process_lines bld defines visited st pre = Some (Return v1 st1) /\
    step bld defines v1 st1 line = Some (Raise v' e).
Proof.
  split.
  - revert visited st. induction lines as [|l ls IH]; intros visited st.
    + done.
    + cbn [process_lines].
      destruct (step bld defines visited st l) as [[v1 st1|v1 e1]|] eqn:Hs;
        [| |done].
      * intros (pre & line & rest & v2 & st2 & -> & Hpre & Hline)%IH.
        exists (l :: pre), line, rest, v2, st2. split; [done |].
        cbn [process_lines]. by rewrite Hs.
      * intros [= -> ->]. by exists [], l, ls, visited, st.
  - intros (pre & line & rest & v1 & st1 & -> & Hpre & Hline).
    rewrite process_lines_app, Hpre. cbn [process_lines]. by rewrite Hline.
Qed.

(** The loop came to its end: [build] returns the joined output, whatever
    is left on the conditional stack. *)
Lemma build_returns file visited text v' st :
  resolve env file ∉ visited ->
  files env !! resolve env file = Some text ->
  process_lines (build env defines) defines ({[resolve env file]} ∪ visited)
    init_state (splitlines true (strip_manifest text)) = Some (Return v' st) ->
  build env defines file visited = Some (Return v' (concat (output st))).
Proof.
  intros Hin Hf Hp. rewrite build_unfold. unfold build_body.
  rewrite bool_decide_eq_false_2 by done. by rewrite Hf, Hp.
Qed.

(** A line raised: [build] raises the same, at once. *)
Lemma build_raises_at file visited text pre line rest v1 st1 v' e :
  resolve env file ∉ visited ->
  files env !! resolve env file = Some text ->
  splitlines true (strip_manifest text) = pre ++ line :: rest ->
  process_lines (build env defines) defines ({[resolve env file]} ∪ visited)
    init_state pre = Some (Return v1 st1) ->
  step (build env defines) defines v1 st1 line = Some (Raise v' e) ->
  build env defines file visited = Some (Raise v' e).
Proof.
  intros Hin Hf Hl Hpre Hline. rewrite build_unfold. unfold build_body.
  rewrite bool_decide_eq_false_2 by done. rewrite Hf.
  assert (Hp : process_lines (build env defines) defines
                 ({[resolve env file]} ∪ visited) init_state
                 (splitlines true (strip_manifest text)) = Some (Raise v' e)).
  { apply process_lines_raise. exists pre, line, rest, v1, st1. auto. }
  by rewrite Hp.
Qed.

(** Every raise of [build] is the visited check, the read, or a line. *)
Lemma build_raise_cases file visited v' e :
  build env defines file visited = Some (Raise v' e) ->
  ((resolve env file ∈ visited) /\ e = CircularInclude (resolve env file)
     /\ v' = visited) \/
  ((resolve env file ∉ visited) /\ files env !! resolve env file = None
     /\ e = ReadError (resolve env file)
     /\ v' = {[resolve env file]} ∪ visited) \/
  ((resolve env file ∉ visited) /\
   exists text pre line rest v1 st1,
     files env !! resolve env file = Some text /\
     splitlines true (strip_manifest text) = pre ++ line :: rest /\
     process_lines (build env defines) defines
       ({[resolve env file]} ∪ visited) init_state pre
       = Some (Return v1 st1) /\
     step (build env defines) defines v1 st1 line = Some (Raise v' e)).
Proof.
  rewrite build_unfold. unfold build_body.
  case_bool_decide as Hin; [intros [= <- <-]; auto |].
  destruct (files env !! resolve env file) as [text|] eqn:Hf;
    [|intros [= <- <-]; right; left; auto].
  destruct (process_lines _ _ _ _ _) as [[v1 st1|v1 e1]|] eqn:Hp; [done | |done].
  intros [= -> ->]. right; right. split; [done |].
  apply process_lines_raise in Hp
    as (pre & line & rest & v2 & st2 & Hl & Hpre & Hline).
  exists text, pre, line, rest, v2, st2. auto.
Qed.
End Outcomes.

(** * The properties of the specification *)

(** ** Cycle detection *)

(** A path that is already in the visited set is refused, open or not. *)
Lemma build_revisit env defines file visited :
  resolve env file ∈ visited ->
  build env defines file visited
  = Some (Raise visited (CircularInclude (resolve env file))).
Proof.
  intros Hin. rewrite build_unfold. unfold build_body.
  by rewrite bool_decide_eq_true_2.
Qed.

Lemma cycle_raises :
  build cycle_tree ∅ (lit "a") ∅
  = Some (Raise {[lit "a"; lit "b"]} (CircularInclude (lit "a"))).
Proof. vm_compute. reflexivity. Qed.

(** C1: [build] raises the circular-include error exactly when the path is
    entered again while it is still open.  The code raises it also for a path
    whose processing is over: with a including b twice, the first include of
    b returns its text, and the second one raises the circular-include error
    for b although no file includes itself. *)
Theorem repeated_include_reported_circular :
  process_lines (build twice_tree ∅) ∅ {[lit "a"]} init_state
    [lit "#:section b" ++ [LF]]
  = Some (Return {[lit "a"; lit "b"]}
            {| skip_stack := []; output := [lit "x" ++ [LF]] |})
  /\ build twice_tree ∅ (lit "a") ∅
     = Some (Raise {[lit "a"; lit "b"]} (CircularInclude (lit "b"))).
Proof. split; vm_compute; reflexivity. Qed.

(** ** Conditional regions *)

(** A file that is a sequence of plain lines and well-nested regions builds
    to what the specification keeps of it. *)
Lemma build_body_lines env defines file visited text lines kept :
  resolve env file ∉ visited ->
  files env !! resolve env file = Some text ->
  splitlines true (strip_manifest text) = lines ->
  body defines lines kept ->
  build env defines file visited
  = Some (Return ({[resolve env file]} ∪ visited) (concat kept)).
Proof.
  intros Hin Hf Hl Hb.
  erewrite build_returns; [| done | done |].
  2:{ rewrite Hl. rewrite <- (app_nil_r lines).
      unfold init_state. rewrite (body_run _ _ _ _ Hb). reflexivity. }
  reflexivity.
Qed.

(** C2: for a well-nested if/else/endif region, the output of [build] is the
    region without its directive lines and with the lines of exactly one
    branch, the first when the tested symbol is defined and the second when
    it is not; the same holds for every region of a file made of plain lines
    and well-nested regions; with DEBUG defined, Example A gives
    "debug_line\n". *)
Theorem conditional_region_output :
  (forall env defines file visited text i sym b1 k1 e b2 k2 d,
     resolve env file ∉ visited ->
     files env !! resolve env file = Some text ->
     splitlines true (strip_manifest text) = i :: b1 ++ e :: b2 ++ [d] ->
     tests i sym ->
     startswith (strip e) ELSE = true ->
     startswith (strip d) ENDIF = true ->
     body defines b1 k1 -> body defines b2 k2 ->
     build env defines file visited
     = Some (Return ({[resolve env file]} ∪ visited)
               (concat (if bool_decide (sym ∈ defines) then k1 else k2))))
  /\ (forall env defines file visited text lines kept,
        resolve env file ∉ visited ->
        files env !! resolve env file = Some text ->
        splitlines true (strip_manifest text) = lines ->
        body defines lines kept ->
        build env defines file visited
        = Some (Return ({[resolve env file]} ∪ visited) (concat kept)))
  /\ build (tree [("a", exA)]%string) {[lit "DEBUG"]} (lit "a") ∅
     = Some (Return {[lit "a"]} (lit "debug_line" ++ [LF])).
Proof.
  split; [|split; [|vm_compute; reflexivity]].
  - intros env defines file visited text i sym b1 k1 e b2 k2 d
      Hin Hf Hl Hi He Hd Hb1 Hb2.
    apply (build_body_lines env defines file visited text
             (i :: b1 ++ e :: b2 ++ [d])); try done.
    rewrite <- (app_nil_r (if bool_decide (sym ∈ defines) then k1 else k2)).
    apply (body_if_else defines i sym b1 k1 e b2 k2 d [] []); auto.
    constructor.
  - apply build_body_lines.
Qed.

Lemma conditional_region_output_witness :
  build (tree [("a", exA)]%string) ∅ (lit "a") ∅
  = Some (Return ({[lit "a"]} ∪ ∅) (lit "release_line" ++ [LF]))
  /\ build (tree [("a", exA_between)]%string) {[lit "DEBUG"]} (lit "a") ∅
     = Some (Return ({[lit "a"]} ∪ ∅)
               (concat [lit "first" ++ [LF]; lit "debug_line" ++ [LF];
                        lit "last" ++ [LF]])).
Proof.
  split.
  - etrans.
    + apply (proj1 conditional_region_output
               (tree [("a", exA)]%string) ∅ (lit "a") ∅ exA
               (lit "#:if DEBUG" ++ [LF]) (lit "DEBUG")
               [lit "debug_line" ++ [LF]] [lit "debug_line" ++ [LF]]
               (lit "#:else" ++ [LF])
               [lit "release_line" ++ [LF]] [lit "release_line" ++ [LF]]
               (lit "#:endif" ++ [LF])).
      * apply not_elem_of_empty.
      * vm_compute. reflexivity.
      * vm_compute. reflexivity.
      * split; vm_compute; reflexivity.
      * vm_compute. reflexivity.
      * vm_compute. reflexivity.
      * apply body_plain_lines. repeat constructor.
      * apply body_plain_lines. repeat constructor.
    + vm_compute. reflexivity.
  - apply (proj1 (proj2 conditional_region_output)
             (tree [("a", exA_between)]%string) {[lit "DEBUG"]} (lit "a") ∅
             exA_between
             (splitlines true (strip_manifest exA_between))).
    + apply not_elem_of_empty.
    + vm_compute. reflexivity.
    + reflexivity.
    + change (body {[lit "DEBUG"]}
                ((lit "first" ++ [LF]) ::
                 (lit "#:if DEBUG" ++ [LF]) ::
                 [lit "debug_line" ++ [LF]] ++
                 (lit "#:else" ++ [LF]) ::
                 [lit "release_line" ++ [LF]] ++
                 (lit "#:endif" ++ [LF]) :: [lit "last" ++ [LF]])
                ((lit "first" ++ [LF]) ::
                 (if bool_decide (lit "DEBUG" ∈ ({[lit "DEBUG"]} : gset str))
                  then [lit "debug_line" ++ [LF]]
                  else [lit "release_line" ++ [LF]])
                 ++ [lit "last" ++ [LF]])).
      apply body_plain; [repeat split |].
      apply (body_if_else _ _ (lit "DEBUG")).
      * split; vm_compute; reflexivity.
      * vm_compute. reflexivity.
      * vm_compute. reflexivity.
      * apply body_plain_lines. repeat constructor.
      * apply body_plain_lines. repeat constructor.
      * apply body_plain_lines. repeat constructor.
Defined.

(** C3: an else-line met with a non-empty stack changes at most the top
    frame: the top is inverted when no frame below it is skipping and is
    left as it is when one is; the frames below and the output stay. *)
Theorem else_changes_only_top bld defines visited st line :
  startswith (strip line) ELSE = true ->
  skip_stack st <> [] ->
  exists below top,
    skip_stack st = below ++ [top] /\
    step bld defines visited st line
    = Some (Return visited
              {| skip_stack := below ++ [if any below then top else negb top];
                 output := output st |}).
Proof.
  intros He (below & top & Hst)%nonempty_snoc. exists below, top.
  split; [done |]. destruct st as [stack out]. simpl in Hst. subst stack.
  by rewrite step_else, do_else_snoc.
Qed.

Lemma else_changes_only_top_witness :
  exists below top,
    [false; true; true] = below ++ [top] /\
    step (fun _ _ => None) ∅ ∅
      {| skip_stack := [false; true; true]; output := [] |}
      (lit "  #:else" ++ [LF])
    = Some (Return ∅
              {| skip_stack := below ++ [if any below then top else negb top];
                 output := [] |}).
Proof.
  apply (else_changes_only_top (fun _ _ => None) ∅ ∅
           {| skip_stack := [false; true; true]; output := [] |}
           (lit "  #:else" ++ [LF])).
  - vm_compute. reflexivity.
  - discriminate.
Defined.

(** ** The manifest *)

Lemma split_colon1_first k v :
  Forall (fun c => c <> COLON) k -> split_colon1 (k ++ COLON :: v) = (k, v).
Proof.
  induction 1 as [|c k Hc _ IH]; simpl; [done |].
  apply N.eqb_neq in Hc. by rewrite Hc, IH.
Qed.

Lemma has_colon_app k v : has_colon (k ++ COLON :: v) = true.
Proof. unfold has_colon. rewrite existsb_app. simpl. by rewrite orb_true_r. Qed.

Lemma fill_app data l1 l2 : fill data (l1 ++ l2) = fill (fill data l1) l2.
Proof.
  revert data. induction l1 as [|l l1 IH]; intros data; simpl; [done |].
  destruct (has_colon l); [|done]. by destruct (split_colon1 l).
Qed.

Lemma collect_outside lines todo :
  Forall (fun l => strip l <> MANIFEST_START) todo ->
  collect false lines todo = lines.
Proof.
  induction 1 as [|l todo Hl _ IH]; simpl; [done |].
  rewrite bool_decide_eq_false_2 by done. by case_bool_decide.
Qed.

(** C4: [Manifest.parse] cuts every collected line that has a colon at its
    first colon, trims key and value and inserts them, a later line
    overwriting an earlier one with the same key; a collected line without
    colon adds nothing; without a start sentinel the mapping is empty; and
    Example B gives the two entries shebang and artifact-name. *)
Theorem manifest_parse_entries :
  (forall text lines k v,
     collect false [] (splitlines false text) = lines ++ [k ++ COLON :: v] ->
     Forall (fun c => c <> COLON) k ->
     Manifest_parse text = <[strip k := strip v]> (fill ∅ lines))
  /\ (forall text lines line,
        collect false [] (splitlines false text) = lines ++ [line] ->
        has_colon line = false ->
        Manifest_parse text = fill ∅ lines)
  /\ (forall text,
        Forall (fun l => strip l <> MANIFEST_START) (splitlines false text) ->
        Manifest_parse text = ∅)
  /\ Manifest_parse exB
     = {[ lit "shebang" := lit "/usr/bin/env node";
          lit "artifact-name" := lit "out.js" ]}.
Proof.
  split; [|split; [|split]].
  - intros text lines k v Hc Hk. unfold Manifest_parse.
    rewrite Hc, fill_app. simpl.
    by rewrite has_colon_app, split_colon1_first.
  - intros text lines line Hc Hl. unfold Manifest_parse.
    rewrite Hc, fill_app. simpl. by rewrite Hl.
  - intros text Hno. unfold Manifest_parse. by rewrite collect_outside.
  - vm_compute. reflexivity.
Qed.

Lemma manifest_parse_entries_witness :
  Manifest_parse exDup
  = <[strip (lit " k ") := strip (lit "a:b ")]>
      (fill ∅ [lit "k: 1"; lit "no colon here"])
  /\ Manifest_parse (lines_text ["0o ---"; "k: 1"; "no colon here"]%string)
     = fill ∅ [lit "k: 1"]
  /\ Manifest_parse (lines_text ["k: 1"; "--- o0"]%string) = ∅.
Proof.
  split; [|split].
  - apply (proj1 manifest_parse_entries exDup
             [lit "k: 1"; lit "no colon here"] (lit " k ") (lit "a:b ")).
    + vm_compute. reflexivity.
    + repeat constructor; discriminate.
  - apply (proj1 (proj2 manifest_parse_entries)
             (lines_text ["0o ---"; "k: 1"; "no colon here"]%string)
             [lit "k: 1"] (lit "no colon here")).
    + vm_compute. reflexivity.
    + vm_compute. reflexivity.
  - apply (proj1 (proj2 (proj2 manifest_parse_entries))
             (lines_text ["k: 1"; "--- o0"]%string)).
    vm_compute. repeat constructor; discriminate.
Defined.

(** C5: stripping the manifest of a stripped text changes nothing; what
    [strip_manifest] returns is the lines it keeps, each as it stands in the
    text with its line ending, in the order of the text. *)
Theorem strip_manifest_idempotent :
  (forall text, strip_manifest (strip_manifest text) = strip_manifest text)
  /\ (forall text,
        strip_manifest text = concat (keep false (splitlines true text))
        /\ keep false (splitlines true text) `sublist_of` splitlines true text
        /\ concat (splitlines true text) = text).
Proof.
  split; [apply strip_manifest_idem |].
  intros text. split; [apply strip_manifest_keep |].
  split; [apply keep_sublist | apply (splitlines_keep_concat text [])].
Qed.

(** ** Unterminated conditionals *)

(** Under a skipping frame, lines that neither open nor alter nor close a
    conditional leave the state of the loop as it is. *)
Lemma skipped_lines bld defines visited st lines :
  any (skip_stack st) = true ->
  Forall (fun l => startswith (strip l) IF = false /\
                   startswith (strip l) ELSE = false /\
                   startswith (strip l) ENDIF = false) lines ->
  process_lines bld defines visited st lines = Some (Return visited st).
Proof.
  intros Hany. induction 1 as [|l lines (Hi & He & Hd) _ IH]; [done |].
  cbn [process_lines]. unfold step, do_include, do_plain.
  rewrite Hi, He, Hd, Hany. cbn [negb].
  by destruct (startswith (strip l) INCLUDE).
Qed.

(** C6: an if that is never closed is accepted.  When the loop comes to the
    end of the file with frames still on the stack, [build] returns the
    output accumulated so far; when the open frame is a skipping one,
    everything after its if-line is dropped up to the end of the file; and
    whenever [build] raises, it is the visited check, the read or a line that
    raised, never the end of the file. *)
Theorem unterminated_if_accepted :
  (forall env defines file visited text v' st,
     resolve env file ∉ visited ->
     files env !! resolve env file = Some text ->
     process_lines (build env defines) defines ({[resolve env file]} ∪ visited)
       init_state (splitlines true (strip_manifest text))
     = Some (Return v' st) ->
     skip_stack st <> [] ->
     build env defines file visited = Some (Return v' (concat (output st))))
  /\ (forall env defines file visited text pre i sym rest v1 st1,
        resolve env file ∉ visited ->
        files env !! resolve env file = Some text ->
        splitlines true (strip_manifest text) = pre ++ i :: rest ->
        process_lines (build env defines) defines
          ({[resolve env file]} ∪ visited) init_state pre
        = Some (Return v1 st1) ->
        tests i sym -> sym ∉ defines ->
        Forall (fun l => startswith (strip l) IF = false /\
                         startswith (strip l) ELSE = false /\
                         startswith (strip l) ENDIF = false) rest ->
        build env defines file visited
        = Some (Return v1 (concat (output st1))))
  /\ (forall env defines file visited v' e,
        build env defines file visited = Some (Raise v' e) ->
        ((resolve env file ∈ visited) /\ e = CircularInclude (resolve env file)
           /\ v' = visited) \/
        ((resolve env file ∉ visited) /\ files env !! resolve env file = None
           /\ e = ReadError (resolve env file)
           /\ v' = {[resolve env file]} ∪ visited) \/
        ((resolve env file ∉ visited) /\
         exists text pre line rest v1 st1,
           files env !! resolve env file = Some text /\
           splitlines true (strip_manifest text) = pre ++ line :: rest /\
           process_lines (build env defines) defines
             ({[resolve env file]} ∪ visited) init_state pre
           = Some (Return v1 st1) /\
           step (build env defines) defines v1 st1 line = Some (Raise v' e))).
Proof.
  split; [|split; [|apply build_raise_cases]].
  - intros env defines file visited text v' st Hin Hf Hp _.
    by apply (build_returns env defines file visited text).
  - intros env defines file visited text pre i sym rest v1 st1
      Hin Hf Hl Hpre Hi Hsym Hrest.
    apply (build_returns env defines file visited text v1
             {| skip_stack := skip_stack st1 ++ [true]; output := output st1 |});
      [done | done |].
    rewrite Hl, process_lines_app, Hpre. cbn [process_lines].
    destruct st1 as [stack out].
    rewrite (step_tests _ _ _ _ _ _ sym) by done.
    rewrite bool_decide_eq_true_2 by done.
    apply skipped_lines; [|done]. cbn [skip_stack].
    rewrite any_snoc. apply orb_true_r.
Qed.

Lemma unterminated_if_accepted_witness :
  build open_if_shown_tree {[lit "X"]} (lit "a") ∅
  = Some (Return {[lit "a"]}
            (concat (output
               {| skip_stack := [false];
                  output := [lit "kept" ++ [LF]; lit "shown" ++ [LF]] |})))
  /\ build open_if_tree ∅ (lit "a") ∅
     = Some (Return {[lit "a"]}
               (concat (output
                  {| skip_stack := []; output := [lit "kept" ++ [LF]] |})))
  /\ (((resolve open_if_tree (lit "a") ∈ (∅ : gset str)) /\
       ReadError (lit "nowhere") = CircularInclude (resolve open_if_tree (lit "a"))
       /\ ({[lit "a"; lit "nowhere"]} : gset str) = ∅) \/
      ((resolve open_if_tree (lit "a") ∉ (∅ : gset str)) /\
       files open_if_tree !! resolve open_if_tree (lit "a") = None /\
       ReadError (lit "nowhere") = ReadError (resolve open_if_tree (lit "a")) /\
       ({[lit "a"; lit "nowhere"]} : gset str)
       = {[resolve open_if_tree (lit "a")]} ∪ ∅) \/
      ((resolve open_if_tree (lit "a") ∉ (∅ : gset str)) /\
       exists text pre line rest v1 st1,
         files open_if_tree !! resolve open_if_tree (lit "a") = Some text /\
         splitlines true (strip_manifest text) = pre ++ line :: rest /\
         process_lines (build open_if_tree {[lit "X"]}) {[lit "X"]}
           ({[resolve open_if_tree (lit "a")]} ∪ ∅) init_state pre
         = Some (Return v1 st1) /\
         step (build open_if_tree {[lit "X"]}) {[lit "X"]} v1 st1 line
         = Some (Raise {[lit "a"; lit "nowhere"]} (ReadError (lit "nowhere"))))).
Proof.
  split; [|split].
  - apply (proj1 unterminated_if_accepted open_if_shown_tree {[lit "X"]}
             (lit "a") ∅ (lines_text ["kept"; "#:if X"; "shown"]%string)).
    + apply not_elem_of_empty.
    + vm_compute. reflexivity.
    + vm_compute. reflexivity.
    + discriminate.
  - apply (proj1 (proj2 unterminated_if_accepted) open_if_tree ∅ (lit "a") ∅
             (lines_text ["kept"; "#:if X"; "dropped"; "#:section nowhere"]%string)
             [lit "kept" ++ [LF]] (lit "#:if X" ++ [LF]) (lit "X")
             [lit "dropped" ++ [LF]; lit "#:section nowhere" ++ [LF]]).
    + apply not_elem_of_empty.
    + vm_compute. reflexivity.
    + vm_compute. reflexivity.
    + vm_compute. reflexivity.
    + split; vm_compute; reflexivity.
    + apply not_elem_of_empty.
    + repeat constructor.
  - apply (proj2 (proj2 unterminated_if_accepted) open_if_tree {[lit "X"]}
             (lit "a") ∅ {[lit "a"; lit "nowhere"]} (ReadError (lit "nowhere"))).
    vm_compute. reflexivity.
Defined.

(** ** Unmatched else and endif *)

Section Unmatched.
Context (bld : builder) (defines : gset str).

Lemma do_include_raise visited st stripped v' e :
  do_include bld visited st stripped = Some (Raise v' e) <->
  any (skip_stack st) = false /\
  ((split_maxsplit1 stripped !! 1%nat = None /\ e = IndexError /\ v' = visited)
   \/ exists path, split_maxsplit1 stripped !! 1%nat = Some path /\
                   bld path visited = Some (Raise v' e)).
Proof.
  unfold do_include. destruct (any (skip_stack st)); cbn [negb].
  - split; [done | by intros [? _]].
  - destruct (split_maxsplit1 stripped !! 1%nat) as [path|].
    + split.
      * intros H. split; [done |]. right. exists path. split; [done |].
        destruct (bld path visited) as [[]|]; by simplify_eq.
      * intros [_ [[? _] | (p & [= <-] & ->)]]; done.
    + split.
      * intros [= <- <-]. auto.
      * intros [_ [(_ & -> & ->) | (p & ? & _)]]; done.
Qed.

Lemma step_raise_else visited st line v' :
  step bld defines visited st line = Some (Raise v' UnmatchedElse) <->
  (startswith (strip line) ELSE = true /\ skip_stack st = [] /\ v' = visited)
  \/ (startswith (strip line) INCLUDE = true /\
      any (skip_stack st) = false /\
      exists path, split_maxsplit1 (strip line) !! 1%nat = Some path /\
                   bld path visited = Some (Raise v' UnmatchedElse)).
Proof.
  destruct (startswith (strip line) INCLUDE) eqn:Hinc.
  - rewrite step_include, do_include_raise by done. split.
    + intros [Hany [(_ & ? & _) | Hp]]; [done | auto].
    + intros [(He & _) | (_ & Hany & Hp)]; [|auto].
      apply else_not_include in He. congruence.
  - unfold step. rewrite Hinc.
    destruct (startswith (strip line) IF) eqn:Hif.
    + split.
      * unfold do_if. by case_match.
      * intros [(He & _) | (? & _)]; [|done].
        apply else_not_if in He. congruence.
    + destruct (startswith (strip line) ELSE) eqn:He.
      * unfold do_else. split.
        -- destruct (last (skip_stack st)) eqn:Hlast.
           ++ by case_match.
           ++ intros [= <-]. left. by apply last_None in Hlast.
        -- intros [(_ & -> & ->) | (? & _)]; done.
      * split.
        -- unfold do_endif. by repeat case_match.
        -- intros [(? & _) | (? & _)]; done.
Qed.

Lemma step_raise_endif visited st line v' :
  step bld defines visited st line = Some (Raise v' UnmatchedEndif) <->
  (startswith (strip line) ENDIF = true /\ skip_stack st = [] /\ v' = visited)
  \/ (startswith (strip line) INCLUDE = true /\
      any (skip_stack st) = false /\
      exists path, split_maxsplit1 (strip line) !! 1%nat = Some path /\
                   bld path visited = Some (Raise v' UnmatchedEndif)).
Proof.
  destruct (startswith (strip line) INCLUDE) eqn:Hinc.
  - rewrite step_include, do_include_raise by done. split.
    + intros [Hany [(_ & ? & _) | Hp]]; [done | auto].
    + intros [(He & _) | (_ & Hany & Hp)]; [|auto].
      apply endif_not_include in He. congruence.
  - unfold step. rewrite Hinc.
    destruct (startswith (strip line) IF) eqn:Hif.
    + split.
      * unfold do_if. by case_match.
      * intros [(He & _) | (? & _)]; [|done].
        apply endif_not_if in He. congruence.
    + destruct (startswith (strip line) ELSE) eqn:He.
      * split.
        -- unfold do_else. by repeat case_match.
        -- intros [(Hd & _) | (? & _)]; [|done].
           apply endif_not_else in Hd. congruence.
      * destruct (startswith (strip line) ENDIF) eqn:Hd.
        -- unfold do_endif. split.
           ++ destruct (skip_stack st); [|done]. intros [= <-]. auto.
           ++ intros [(_ & -> & ->) | (? & _)]; done.
        -- split; [done |]. intros [(? & _) | (? & _)]; done.
Qed.
End Unmatched.

(** C7: a line raises unmatched-else exactly when it is an else-line met
    with an empty stack (or an include that is acted on and whose own build
    raised it), and the same for unmatched-endif with an endif-line; [build]
    raises either of them exactly when a line of the file does so in the
    state the loop has reached, and then nothing is returned. *)
Theorem unmatched_else_endif :
  (forall bld defines visited st line v',
     step bld defines visited st line = Some (Raise v' UnmatchedElse) <->
     (startswith (strip line) ELSE = true /\ skip_stack st = [] /\ v' = visited)
     \/ (startswith (strip line) INCLUDE = true /\
         any (skip_stack st) = false /\
         exists path, split_maxsplit1 (strip line) !! 1%nat = Some path /\
                      bld path visited = Some (Raise v' UnmatchedElse)))
  /\ (forall bld defines visited st line v',
        step bld defines visited st line = Some (Raise v' UnmatchedEndif) <->
        (startswith (strip line) ENDIF = true /\ skip_stack st = [] /\ v' = visited)
        \/ (startswith (strip line) INCLUDE = true /\
            any (skip_stack st) = false /\
            exists path, split_maxsplit1 (strip line) !! 1%nat = Some path /\
                         bld path visited = Some (Raise v' UnmatchedEndif)))
  /\ (forall env defines file visited v' e,
        e = UnmatchedElse \/ e = UnmatchedEndif ->
        build env defines file visited = Some (Raise v' e) <->
        (resolve env file ∉ visited) /\
        exists text pre line rest v1 st1,
          files env !! resolve env file = Some text /\
          splitlines true (strip_manifest text) = pre ++ line :: rest /\
          process_lines (build env defines) defines
            ({[resolve env file]} ∪ visited) init_state pre
          = Some (Return v1 st1) /\
          step (build env defines) defines v1 st1 line = Some (Raise v' e)).
Proof.
  split; [|split].
  - apply step_raise_else.
  - apply step_raise_endif.
  - intros env defines file visited v' e He. split.
    + intros [(_ & -> & _) | [(_ & _ & -> & _) | H]]%build_raise_cases.
      * by destruct He.
      * by destruct He.
      * done.
    + intros (Hin & text & pre & line & rest & v1 & st1 & Hf & Hl & Hpre & Hs).
      by apply (build_raises_at env defines file visited text pre line rest v1 st1).
Qed.

Lemma unmatched_else_endif_witness :
  build dangling_tree ∅ (lit "a") ∅ = Some (Raise {[lit "a"]} UnmatchedElse)
  /\ build dangling_tree ∅ (lit "b") ∅ = Some (Raise {[lit "b"]} UnmatchedEndif).
Proof.
  destruct unmatched_else_endif as (Helse & Hendif & Hbuild). split.
  - apply Hbuild; [by left |]. split; [apply not_elem_of_empty |].
    exists (lines_text ["x"; "#:else"]%string), [lit "x" ++ [LF]],
      (lit "#:else" ++ [LF]), [], {[lit "a"]},
      {| skip_stack := []; output := [lit "x" ++ [LF]] |}.
    split; [vm_compute; reflexivity |].
    split; [vm_compute; reflexivity |].
    split; [vm_compute; reflexivity |].
    apply Helse. left. split; [vm_compute; reflexivity |]. by split.
  - apply Hbuild; [by right |]. split; [apply not_elem_of_empty |].
    exists (lines_text ["#:if X"; "#:endif"; "#:endif"]%string),
      [lit "#:if X" ++ [LF]; lit "#:endif" ++ [LF]],
      (lit "#:endif" ++ [LF]), [], {[lit "b"]},
      {| skip_stack := []; output := [] |}.
    split; [vm_compute; reflexivity |].
    split; [vm_compute; reflexivity |].
    split; [vm_compute; reflexivity |].
    apply Hendif. left. split; [vm_compute; reflexivity |]. by split.
Defined.

(** ** Determinism *)

(** C8: with the file tree and the defined symbols fixed, the text a
    top-level build produces does not depend on what earlier builds left in
    the assembler: [run_build] clears the visited set and loads the manifest
    anew, so any two runs, and in particular a run and its rerun, end with
    the same text or the same error. *)
Theorem run_build_deterministic :
  (forall env a1 a2 input_file,
     defines a1 = defines a2 ->
     snd <$> run_build env a1 input_file = snd <$> run_build env a2 input_file)
  /\ (forall env a input_file,
        exists a' r,
          run_build env a input_file = Some (a', r) /\
          defines a' = defines a /\
          snd <$> run_build env a' input_file = Some r).
Proof.
  assert (Hdet : forall env a1 a2 input_file,
            defines a1 = defines a2 ->
            snd <$> run_build env a1 input_file
            = snd <$> run_build env a2 input_file).
  { intros env a1 a2 input_file Hd. unfold run_build, load_manifest.
    cbn [visited defines manifest]. rewrite Hd.
    destruct (files env !! resolve env input_file) as [text|]; [|done].
    cbn [visited defines manifest].
    by destruct (build env (defines a2) input_file ∅) as [[v r|v e]|]. }
  split; [done |].
  intros env a input_file.
  assert (Hrun : exists a' r, run_build env a input_file = Some (a', r) /\
                              defines a' = defines a).
  { unfold run_build, load_manifest. cbn [visited defines manifest].
    destruct (files env !! resolve env input_file) as [text|];
      [|by eexists _, _].
    cbn [visited defines manifest].
    destruct (build_total env (defines a) input_file ∅) as [o Ho].
    rewrite Ho. destruct o; by eexists _, _. }
  destruct Hrun as (a' & r & Hrun & Hd). exists a', r.
  split; [done |]. split; [done |].
  rewrite (Hdet env a' a input_file Hd). by rewrite Hrun.
Qed.

Lemma run_build_deterministic_witness :
  snd <$> run_build shebang_tree
            {| visited := {[lit "index.obun"; lit "lib"]};
               defines := {[lit "DEBUG"]};
               manifest := {[lit "stale" := lit "entry"]} |}
            (lit "index.obun")
  = snd <$> run_build shebang_tree
              {| visited := ∅; defines := {[lit "DEBUG"]}; manifest := ∅ |}
              (lit "index.obun").
Proof.
  apply (proj1 run_build_deterministic shebang_tree). reflexivity.
Defined.

(** ** Directives without their argument *)

Lemma step_if_bare bld defines visited st line :
  strip line = IF ->
  step bld defines visited st line = Some (Raise visited IndexError).
Proof. intros H. rewrite step_if by (by rewrite H). by rewrite H. Qed.

Lemma step_include_bare bld defines visited st line :
  strip line = INCLUDE -> any (skip_stack st) = false ->
  step bld defines visited st line = Some (Raise visited IndexError).
Proof.
  intros H Hany. rewrite step_include by (by rewrite H).
  unfold do_include. by rewrite Hany, H.
Qed.

(** C9: a bare "#:if", and a bare "#:section" met while no frame is
    skipping, raise the IndexError of [split(...)[1]]: [build] ends with it
    as soon as the loop reaches such a line, and it is none of the four
    error kinds of the specification. *)
Theorem missing_argument_index_error :
  (forall env defines file visited text pre line rest v1 st1,
     resolve env file ∉ visited ->
     files env !! resolve env file = Some text ->
     splitlines true (strip_manifest text) = pre ++ line :: rest ->
     process_lines (build env defines) defines ({[resolve env file]} ∪ visited)
       init_state pre = Some (Return v1 st1) ->
     strip line = IF ->
     build env defines file visited = Some (Raise v1 IndexError))
  /\ (forall env defines file visited text pre line rest v1 st1,
        resolve env file ∉ visited ->
        files env !! resolve env file = Some text ->
        splitlines true (strip_manifest text) = pre ++ line :: rest ->
        process_lines (build env defines) defines
          ({[resolve env file]} ∪ visited) init_state pre
        = Some (Return v1 st1) ->
        strip line = INCLUDE -> any (skip_stack st1) = false ->
        build env defines file visited = Some (Raise v1 IndexError))
  /\ (forall env defines file visited text pre line rest,
        resolve env file ∉ visited ->
        files env !! resolve env file = Some text ->
        splitlines true (strip_manifest text) = pre ++ line :: rest ->
        strip line = IF ->
        exists v' e, build env defines file visited = Some (Raise v' e))
  /\ (forall path, IndexError <> CircularInclude path
                   /\ IndexError <> ReadError path)
  /\ IndexError <> UnmatchedElse /\ IndexError <> UnmatchedEndif.
Proof.
  split; [|split; [|split; [|split; [|split]]]]; try done.
  - intros env defines file visited text pre line rest v1 st1
      Hin Hf Hl Hpre Hline.
    apply (build_raises_at env defines file visited text pre line rest v1 st1);
      try done.
    by apply step_if_bare.
  - intros env defines file visited text pre line rest v1 st1
      Hin Hf Hl Hpre Hline Hany.
    apply (build_raises_at env defines file visited text pre line rest v1 st1);
      try done.
    by apply step_include_bare.
  - intros env defines file visited text pre line rest Hin Hf Hl Hline.
    destruct (process_lines_total env defines
                ({[resolve env file]} ∪ visited) init_state pre)
      as [[v1 st1|v1 e] Hpre].
    + exists v1, IndexError.
      apply (build_raises_at env defines file visited text pre line rest v1 st1);
        try done.
      by apply step_if_bare.
    + exists v1, e. rewrite build_unfold. unfold build_body.
      rewrite bool_decide_eq_false_2 by done.
      by rewrite Hf, Hl, process_lines_app, Hpre.
Qed.

Lemma missing_argument_index_error_witness :
  build bare_tree ∅ (lit "a") ∅ = Some (Raise {[lit "a"]} IndexError)
  /\ build bare_tree ∅ (lit "b") ∅ = Some (Raise {[lit "b"]} IndexError)
  /\ exists v' e, build bare_tree ∅ (lit "c") ∅ = Some (Raise v' e).
Proof.
  split; [|split]; [| |
    apply (proj1 (proj2 (proj2 missing_argument_index_error)) bare_tree ∅
             (lit "c") ∅ (lines_text ["#:endif"; "#:if"]%string)
             [lit "#:endif" ++ [LF]] (lit "#:if" ++ [LF]) []);
    [apply not_elem_of_empty | vm_compute; reflexivity..]].
  - apply (proj1 missing_argument_index_error bare_tree ∅ (lit "a") ∅
             (lines_text ["x"; "#:if X"; "  #:if  "; "y"]%string)
             [lit "x" ++ [LF]; lit "#:if X" ++ [LF]]
             (lit "  #:if  " ++ [LF]) [lit "y" ++ [LF]]
             {[lit "a"]} {| skip_stack := [true]; output := [lit "x" ++ [LF]] |}).
    + apply not_elem_of_empty.
    + vm_compute. reflexivity.
    + vm_compute. reflexivity.
    + vm_compute. reflexivity.
    + vm_compute. reflexivity.
  - apply (proj1 (proj2 missing_argument_index_error) bare_tree ∅ (lit "b") ∅
             (lines_text ["x"; "#:section"; "y"]%string)
             [lit "x" ++ [LF]] (lit "#:section" ++ [LF]) [lit "y" ++ [LF]]
             {[lit "b"]} {| skip_stack := []; output := [lit "x" ++ [LF]] |}).
    + apply not_elem_of_empty.
    + vm_compute. reflexivity.
    + vm_compute. reflexivity.
    + vm_compute. reflexivity.
    + vm_compute. reflexivity.
    + vm_compute. reflexivity.
Defined.

(** ** Directives are recognised by prefix *)

(** The argument of a directive: what follows the first run of whitespace,
    whatever stands between the token and that whitespace. *)
Lemma split_maxsplit1_arg word ws c arg :
  word <> [] -> Forall (fun x => is_space x = false) word ->
  ws <> [] -> Forall (fun x => is_space x = true) ws ->
  is_space c = false ->
  split_maxsplit1 (word ++ ws ++ c :: arg) = [word; c :: arg].
Proof.
  intros Hw Hword Hs Hws Hc.
  destruct word as [|w0 word]; [done |]. destruct ws as [|s0 ws]; [done |].
  apply Forall_cons in Hword as Hword'. destruct Hword' as [Hw0 _].
  apply Forall_cons in Hws as Hws'. destruct Hws' as [Hs0 _].
  unfold split_maxsplit1. cbn [app].
  rewrite drop_while_none by done.
  change (w0 :: word ++ s0 :: ws ++ c :: arg)
    with ((w0 :: word) ++ s0 :: ws ++ c :: arg).
  rewrite take_while_app_stop, drop_while_app_stop.
  - change (s0 :: ws ++ c :: arg) with ((s0 :: ws) ++ c :: arg).
    by rewrite drop_while_app_stop.
  - eapply Forall_impl; [exact Hword |]. by intros x ->.
  - by rewrite Hs0.
  - eapply Forall_impl; [exact Hword |]. by intros x ->.
  - by rewrite Hs0.
Qed.

Lemma IF_no_space : Forall (fun x => is_space x = false) IF.
Proof. by repeat constructor. Qed.

Lemma INCLUDE_no_space : Forall (fun x => is_space x = false) INCLUDE.
Proof. by repeat constructor. Qed.

(** C10: a line is a directive as soon as its trimmed form begins with the
    token, whatever follows the token: the loop tests the four prefixes in
    the order section, if, else, endif; after "#:if" or "#:section" any
    characters up to the first whitespace are ignored and the argument is
    what follows that whitespace; "#:else" and "#:endif" act whatever
    follows them. *)
Theorem directives_by_prefix :
  (forall bld defines visited st line,
     step bld defines visited st line
     = if startswith (strip line) INCLUDE then
         do_include bld visited st (strip line)
       else if startswith (strip line) IF then
         Some (do_if defines visited st (strip line))
       else if startswith (strip line) ELSE then Some (do_else visited st)
       else if startswith (strip line) ENDIF then Some (do_endif visited st)
       else Some (Return visited (do_plain st line)))
  /\ (forall bld defines visited st line tail ws c arg,
        strip line = IF ++ tail ++ ws ++ c :: arg ->
        Forall (fun x => is_space x = false) tail ->
        ws <> [] -> Forall (fun x => is_space x = true) ws ->
        is_space c = false ->
        step bld defines visited st line
        = Some (Return visited
                  {| skip_stack :=
                       skip_stack st ++ [bool_decide (c :: arg ∉ defines)];
                     output := output st |}))
  /\ (forall bld defines visited st line tail ws c arg,
        strip line = INCLUDE ++ tail ++ ws ++ c :: arg ->
        Forall (fun x => is_space x = false) tail ->
        ws <> [] -> Forall (fun x => is_space x = true) ws ->
        is_space c = false ->
        any (skip_stack st) = false ->
        step bld defines visited st line
        = match bld (c :: arg) visited with
          | None => None
          | Some (Raise visited' e) => Some (Raise visited' e)
          | Some (Return visited' text) =>
              Some (Return visited'
                      {| skip_stack := skip_stack st;
                         output := output st ++ [text] |})
          end)
  /\ (forall bld defines visited st line tail,
        strip line = INCLUDE ++ tail -> any (skip_stack st) = true ->
        step bld defines visited st line = Some (Return visited st))
  /\ (forall bld defines visited st line tail,
        strip line = ELSE ++ tail ->
        step bld defines visited st line = Some (do_else visited st))
  /\ (forall bld defines visited st line tail,
        strip line = ENDIF ++ tail ->
        step bld defines visited st line = Some (do_endif visited st)).
Proof.
  split; [done |]. split; [|split; [|split; [|split]]].
  - intros bld defines visited st line tail ws c arg Hl Ht Hs Hws Hc.
    rewrite step_if by (rewrite Hl; apply startswith_app).
    unfold do_if. rewrite Hl, app_assoc.
    rewrite split_maxsplit1_arg; try done.
    apply Forall_app. split; [apply IF_no_space | done].
  - intros bld defines visited st line tail ws c arg Hl Ht Hs Hws Hc Hany.
    rewrite step_include by (rewrite Hl; apply startswith_app).
    unfold do_include. rewrite Hany, Hl, app_assoc. cbn [negb].
    rewrite split_maxsplit1_arg; try done.
    apply Forall_app. split; [apply INCLUDE_no_space | done].
  - intros bld defines visited st line tail Hl Hany.
    rewrite step_include by (rewrite Hl; apply startswith_app).
    unfold do_include. by rewrite Hany.
  - intros bld defines visited st line tail Hl.
    apply step_else. rewrite Hl. apply startswith_app.
  - intros bld defines visited st line tail Hl.
    apply step_endif. rewrite Hl. apply startswith_app.
Qed.

Lemma directives_by_prefix_witness :
  step (build prefix_tree ∅) ∅ ∅ init_state (lit "#:ifdef X" ++ [LF])
  = Some (Return ∅ {| skip_stack := [true]; output := [] |})
  /\ step (build prefix_tree ∅) ∅ {[lit "a"]} init_state
       (lit "#:sectionX b" ++ [LF])
     = Some (Return {[lit "a"; lit "b"]}
               {| skip_stack := []; output := [lit "from b" ++ [LF]] |})
  /\ step (build prefix_tree ∅) ∅ ∅
       {| skip_stack := [true]; output := [] |} (lit "#:sectionX b" ++ [LF])
     = Some (Return ∅ {| skip_stack := [true]; output := [] |})
  /\ step (build prefix_tree ∅) ∅ ∅
       {| skip_stack := [true]; output := [] |} (lit "#:elsewhere" ++ [LF])
     = Some (do_else ∅ {| skip_stack := [true]; output := [] |})
  /\ step (build prefix_tree ∅) ∅ ∅
       {| skip_stack := [true]; output := [] |} (lit "#:endiffy" ++ [LF])
     = Some (do_endif ∅ {| skip_stack := [true]; output := [] |}).
Proof.
  destruct directives_by_prefix as (_ & Hif & Hinc & Hskip & Helse & Hendif).
  split; [|split; [|split; [|split]]].
  - etrans.
    + apply (Hif (build prefix_tree ∅) ∅ ∅ init_state
               (lit "#:ifdef X" ++ [LF]) (lit "def") (lit " ") 88 []).
      * vm_compute. reflexivity.
      * by repeat constructor.
      * discriminate.
      * by repeat constructor.
      * reflexivity.
    + vm_compute. reflexivity.
  - etrans.
    + apply (Hinc (build prefix_tree ∅) ∅ {[lit "a"]} init_state
               (lit "#:sectionX b" ++ [LF]) (lit "X") (lit " ") 98 []).
      * vm_compute. reflexivity.
      * by repeat constructor.
      * discriminate.
      * by repeat constructor.
      * reflexivity.
      * reflexivity.
    + vm_compute. reflexivity.
  - apply (Hskip (build prefix_tree ∅) ∅ ∅ _ (lit "#:sectionX b" ++ [LF])
             (lit "X b")).
    + vm_compute. reflexivity.
    + reflexivity.
  - apply (Helse (build prefix_tree ∅) ∅ ∅ _ (lit "#:elsewhere" ++ [LF])
             (lit "where")).
    vm_compute. reflexivity.
  - apply (Hendif (build prefix_tree ∅) ∅ ∅ _ (lit "#:endiffy" ++ [LF])
             (lit "fy")).
    vm_compute. reflexivity.
Defined.

Example exB_stripped : strip_manifest exB = lit "code" ++ [LF].
Proof. vm_compute. reflexivity. Qed.

Example prefix_tree_output :
  build prefix_tree {[lit "X"]} (lit "a") ∅
  = Some (Return {[lit "a"; lit "b"]} (lit "from b" ++ [LF] ++ lit "in" ++ [LF])).
Proof. vm_compute. reflexivity. Qed.

(** * Further properties of the code *)

(** ** [strip] *)

Lemma drop_while_head p s :
  drop_while p s = [] \/ exists c s', drop_while p s = c :: s' /\ p c = false.
Proof.
  induction s as [|c s IH]; simpl; [by left |].
  destruct (p c) eqn:Hc; [done |]. right. eauto.
Qed.

Lemma drop_while_snoc p s c :
  p c = false -> drop_while p (s ++ [c]) = drop_while p s ++ [c].
Proof.
  intros Hc. induction s as [|x s IH]; simpl; [by rewrite Hc |].
  by destruct (p x).
Qed.

(** What [strip] returns is empty or begins and ends with a character that
    is not whitespace. *)
Lemma strip_shape s :
  strip s = [] \/
  (exists c, strip s = [c] /\ is_space c = false) \/
  (exists c m d, strip s = c :: m ++ [d] /\
                 is_space c = false /\ is_space d = false).
Proof.
  unfold strip.
  destruct (drop_while_head is_space s) as [-> | (c & a & -> & Hc)];
    [by left |].
  right. simpl rev. rewrite drop_while_snoc by done.
  destruct (drop_while_head is_space (rev a)) as [-> | (d & x & -> & Hd)].
  - left. by exists c.
  - right. exists c, (rev x), d. split; [|done].
    simpl. by rewrite rev_app_distr.
Qed.

Lemma strip_idem s : strip (strip s) = strip s.
Proof.
  destruct (strip_shape s)
    as [-> | [(c & -> & Hc) | (c & m & d & -> & Hc & Hd)]].
  - reflexivity.
  - by apply strip_id1.
  - by apply strip_id.
Qed.

(** ** Lines with and without their endings *)

(** [splitlines()] and [splitlines(True)] cut at the same places: their
    lines differ in the line endings only, which [strip] removes. *)
Lemma splitlines_strip_same s cur :
  Forall2 (fun a b => strip a = strip b)
    (splitlines_from false cur s) (splitlines_from true cur s).
Proof.
  revert cur. induction s as [s IH] using str_length_ind. intros cur.
  destruct s as [|c s'].
  - simpl. destruct cur; by repeat constructor.
  - rewrite !splitlines_from_cons. destruct (is_linebreak c) eqn:Hc.
    + assert (Hsp : is_space c = true) by by apply is_linebreak_space.
      destruct s' as [|c' s''].
      * repeat constructor. rewrite app_nil_r.
        symmetry. apply strip_app_space. by repeat constructor.
      * destruct ((c =? CR) && (c' =? LF)) eqn:Hcrlf.
        -- apply andb_true_iff in Hcrlf as [_ ->%N.eqb_eq].
           constructor; [|apply IH; simpl; lia].
           rewrite app_nil_r. symmetry. apply strip_app_space.
           by repeat constructor.
        -- constructor; [|apply IH; simpl; lia].
           rewrite app_nil_r. symmetry. apply strip_app_space.
           by repeat constructor.
    + apply IH. simpl; lia.
Qed.

Lemma splitlines_strip_Forall (P : str -> Prop) s :
  Forall (fun l => P (strip l)) (splitlines true s) ->
  Forall (fun l => P (strip l)) (splitlines false s).
Proof.
  unfold splitlines. intros HF.
  induction (splitlines_strip_same s []) as [|a b la lb Hab _ IH];
    [constructor |].
  apply Forall_cons in HF as [Hb HF]. constructor; [by rewrite Hab | auto].
Qed.

(** ** More on the manifest block *)



Lemma collect_stop inside lines pre e post :
  Forall (fun l => strip l <> MANIFEST_END) pre ->
  strip e = MANIFEST_END ->
  collect inside lines (pre ++ e :: post) = collect inside lines pre.
Proof.
  intros Hpre He. revert inside lines.
  induction Hpre as [|l pre Hl _ IH]; intros inside lines; simpl.
  - rewrite He. reflexivity.
  - repeat case_bool_decide; try done; destruct inside; auto.
Qed.



(** X1: a text without sentinel line is left as it is by
    [strip_manifest]. *)
Theorem strip_manifest_without_sentinel text :
  Forall (fun l => ~ is_sentinel l) (splitlines true text) ->
  strip_manifest text = text.
Proof.
  intros Hno. rewrite strip_manifest_keep, keep_all by done.
  apply (splitlines_keep_concat text []).
Qed.

Lemma strip_manifest_without_sentinel_witness :
  strip_manifest (lines_text ["a: b"; " 0o --- x"; ""]%string ++ lit "end")
  = lines_text ["a: b"; " 0o --- x"; ""]%string ++ lit "end".
Proof.
  apply strip_manifest_without_sentinel. vm_compute.
  repeat constructor; intros [H | H]; discriminate H.
Defined.

(** X2: no line of a stripped text is a sentinel line, and parsing a
    stripped text for a manifest finds nothing. *)
Theorem stripped_text_has_no_manifest :
  (forall text,
     Forall (fun l => ~ is_sentinel l) (splitlines true (strip_manifest text)))
  /\ (forall text, Manifest_parse (strip_manifest text) = ∅).
Proof.
  assert (Hclean : forall text,
            Forall (fun l => ~ is_sentinel l)
              (splitlines true (strip_manifest text))).
  { intros text. rewrite strip_manifest_keep.
    apply (resplit_Forall (fun l => ~ is_sentinel l)).
    - unfold is_sentinel. intros l l' Heq. by rewrite Heq.
    - apply keep_ok, splitlines_keep_ok. constructor.
    - apply keep_no_sentinel. }
  split; [done |]. intros text.
  unfold Manifest_parse. rewrite collect_outside; [done |].
  apply (splitlines_strip_Forall (fun x => x <> MANIFEST_START)).
  eapply Forall_impl; [apply Hclean |].
  unfold is_sentinel. intros l Hl. tauto.
Qed.



(** X4: [Manifest.parse] stops at the first end sentinel: what follows it,
    a second manifest block too, has no part in the mapping, although
    [strip_manifest] removes such a second block from the text. *)
Theorem manifest_parse_stops_at_end text pre e post :
  splitlines false text = pre ++ e :: post ->
  Forall (fun l => strip l <> MANIFEST_END) pre ->
  strip e = MANIFEST_END ->
  Manifest_parse text = fill ∅ (collect false [] pre).
Proof.
  intros Hl Hpre He. unfold Manifest_parse. by rewrite Hl, collect_stop.
Qed.

Lemma manifest_parse_stops_at_end_witness :
  Manifest_parse two_blocks = fill ∅ (collect false [] [lit "0o ---"; lit "a: 1"])
  /\ Manifest_parse two_blocks !! lit "b" = None
  /\ strip_manifest two_blocks = lines_text ["code"; "more"]%string.
Proof.
  split; [|split; vm_compute; reflexivity].
  apply (manifest_parse_stops_at_end two_blocks
           [lit "0o ---"; lit "a: 1"] (lit "--- o0")
           [lit "code"; lit "0o ---"; lit "b: 2"; lit "--- o0"; lit "more"]).
  - vm_compute. reflexivity.
  - repeat constructor; discriminate.
  - vm_compute. reflexivity.
Defined.

Lemma split_colon1_inv l k v :
  has_colon l = true -> split_colon1 l = (k, v) ->
  l = k ++ COLON :: v /\ Forall (fun c => c <> COLON) k.
Proof.
  revert k. induction l as [|c l IH]; intros k; [done |].
  unfold has_colon. cbn [existsb split_colon1].
  destruct (N.eqb_spec c COLON) as [-> | Hne].
  - intros _ [= <- <-]. by split.
  - assert (Hc : (COLON =? c) = false) by (apply N.eqb_neq; congruence).
    rewrite Hc. cbn [orb]. intros Hl.
    destruct (split_colon1 l) as [k0 v0].
    intros [= <- <-]. destruct (IH k0 Hl eq_refl) as [-> Hk].
    split; [done | by constructor].
Qed.

Lemma fill_lookup data lines k v :
  fill data lines !! k = Some v ->
  data !! k = Some v \/
  exists line k0 v0,
    line ∈ lines /\ line = k0 ++ COLON :: v0 /\
    Forall (fun c => c <> COLON) k0 /\ k = strip k0 /\ v = strip v0.
Proof.
  revert data. induction lines as [|l lines IH]; intros data; simpl; [auto |].
  destruct (has_colon l) eqn:Hc.
  - destruct (split_colon1 l) as [k0 v0] eqn:Hs.
    destruct (split_colon1_inv l k0 v0 Hc Hs) as [Hl Hk].
    intros [Hd | (line & k1 & v1 & Hin & Hrest)]%IH.
    + destruct (decide (strip k0 = k)) as [<- | Hne].
      * rewrite lookup_insert_eq in Hd. injection Hd as <-.
        right. exists l, k0, v0. split; [left |]; done.
      * rewrite lookup_insert_ne in Hd by done. by left.
    + right. exists line, k1, v1. split; [by right | done].
  - intros [Hd | (line & k1 & v1 & Hin & Hrest)]%IH; [by left |].
    right. exists line, k1, v1. split; [by right | done].
Qed.

(** X5: every entry of the parsed manifest comes from a collected line cut
    at its first colon, and neither its key nor its value begins or ends
    with whitespace. *)
Theorem manifest_entries_trimmed text k v :
  Manifest_parse text !! k = Some v ->
  strip k = k /\ strip v = v /\
  exists line k0 v0,
    line ∈ collect false [] (splitlines false text) /\
    line = k0 ++ COLON :: v0 /\ Forall (fun c => c <> COLON) k0 /\
    k = strip k0 /\ v = strip v0.
Proof.
  unfold Manifest_parse.
  intros [Hd | (line & k0 & v0 & Hin & Hl & Hk & -> & ->)]%fill_lookup.
  - by rewrite lookup_empty in Hd.
  - split; [apply strip_idem |]. split; [apply strip_idem |].
    by exists line, k0, v0.
Qed.

Lemma manifest_entries_trimmed_witness :
  strip (lit "k") = lit "k" /\ strip (lit "a:b") = lit "a:b" /\
  exists line k0 v0,
    line ∈ collect false [] (splitlines false exDup) /\
    line = k0 ++ COLON :: v0 /\ Forall (fun c => c <> COLON) k0 /\
    lit "k" = strip k0 /\ lit "a:b" = strip v0.
Proof.
  apply (manifest_entries_trimmed exDup (lit "k") (lit "a:b")).
  vm_compute. reflexivity.
Defined.

(** ** More on [build] *)

Lemma include_not_if s :
  startswith s INCLUDE = true -> startswith s IF = false.
Proof.
  intros Hi. destruct (startswith s IF) eqn:Hif; [|done].
  apply if_not_include in Hif. congruence.
Qed.

Lemma include_not_else s :
  startswith s INCLUDE = true -> startswith s ELSE = false.
Proof.
  intros Hi. destruct (startswith s ELSE) eqn:He; [|done].
  apply else_not_include in He. congruence.
Qed.

Lemma include_not_endif s :
  startswith s INCLUDE = true -> startswith s ENDIF = false.
Proof.
  intros Hi. destruct (startswith s ENDIF) eqn:He; [|done].
  apply endif_not_include in He. congruence.
Qed.

Lemma step_include_active bld defines visited st line path :
  startswith (strip line) INCLUDE = true ->
  any (skip_stack st) = false ->
  split_maxsplit1 (strip line) !! 1%nat = Some path ->
  step bld defines visited st line
  = match bld path visited with
    | None => None
    | Some (Raise visited' e) => Some (Raise visited' e)
    | Some (Return visited' text) =>
        Some (Return visited'
                {| skip_stack := skip_stack st;
                   output := output st ++ [text] |})
    end.
Proof.
  intros Hi Hany Hp. rewrite step_include by done.
  unfold do_include. by rewrite Hany, Hp.
Qed.



(** X7: a file without manifest sentinel and without directive is returned
    as it is. *)
Theorem build_plain_file env defines file visited text :
  resolve env file ∉ visited ->
  files env !! resolve env file = Some text ->
  Forall (fun l => is_plain l /\ ~ is_sentinel l) (splitlines true text) ->
  build env defines file visited
  = Some (Return ({[resolve env file]} ∪ visited) text).
Proof.
  intros Hin Hf Hall.
  assert (Hs : strip_manifest text = text).
  { apply strip_manifest_without_sentinel.
    eapply Forall_impl; [exact Hall |]. by intros l [_ ?]. }
  assert (Hc : concat (splitlines true text) = text)
    by apply (splitlines_keep_concat text []).
  rewrite <- Hc at 1.
  apply (build_body_lines env defines file visited text
           (splitlines true text)); [done | done | by rewrite Hs |].
  apply body_plain_lines.
  eapply Forall_impl; [exact Hall |]. by intros l [? _].
Qed.

Lemma build_plain_file_witness :
  build (tree [("a", loose_text)]%string) {[lit "x"]} (lit "a") ∅
  = Some (Return ({[lit "a"]} ∪ ∅) loose_text).
Proof.
  apply (build_plain_file (tree [("a", loose_text)]%string)).
  - apply not_elem_of_empty.
  - vm_compute. reflexivity.
  - vm_compute. repeat constructor; intros [H | H]; discriminate H.
Defined.

Section Includes.
Context (env : FileTree) (defines : gset str).

Lemma loop_before_include visited pre kpre inc post :
  body defines pre kpre ->
  process_lines (build env defines) defines visited init_state
    (pre ++ inc :: post)
  = match step (build env defines) defines visited
            {| skip_stack := []; output := kpre |} inc with
    | Some (Return visited' st') =>
        process_lines (build env defines) defines visited' st' post
    | o => o
    end.
Proof.
  intros Hpre. unfold init_state. by rewrite (body_run _ _ _ _ Hpre).
Qed.

(** The text an include returns stands in the output where the include-line
    stood. *)
Lemma include_spliced file visited text pre kpre inc path post kpost v' t :
  resolve env file ∉ visited ->
  files env !! resolve env file = Some text ->
  splitlines true (strip_manifest text) = pre ++ inc :: post ->
  body defines pre kpre -> body defines post kpost ->
  startswith (strip inc) INCLUDE = true ->
  split_maxsplit1 (strip inc) !! 1%nat = Some path ->
  build env defines path ({[resolve env file]} ∪ visited)
  = Some (Return v' t) ->
  build env defines file visited
  = Some (Return v' (concat kpre ++ t ++ concat kpost)).
Proof.
  intros Hin Hf Hl Hpre Hpost Hi Hp Hb.
  erewrite build_returns; [| done | done |].
  2:{ rewrite Hl, (loop_before_include _ _ kpre) by done.
      rewrite (step_include_active _ _ _ _ _ path) by done.
      rewrite Hb. cbn [skip_stack output].
      rewrite <- (app_nil_r post), (body_run _ _ _ _ Hpost). reflexivity. }
  cbn [output any existsb]. rewrite !concat_app. cbn [concat].
  by rewrite app_nil_r, <- app_assoc.
Qed.

End Includes.

(** X8: when a file is plain lines and well-nested regions around one
    include-line, [build] returns what it keeps before the include, then the
    text the include returns, then what it keeps after it. *)
Theorem include_is_spliced
    env defines file visited text pre kpre inc path post kpost v' t :
  resolve env file ∉ visited ->
  files env !! resolve env file = Some text ->
  splitlines true (strip_manifest text) = pre ++ inc :: post ->
  body defines pre kpre -> body defines post kpost ->
  startswith (strip inc) INCLUDE = true ->
  split_maxsplit1 (strip inc) !! 1%nat = Some path ->
  build env defines path ({[resolve env file]} ∪ visited)
  = Some (Return v' t) ->
  build env defines file visited
  = Some (Return v' (concat kpre ++ t ++ concat kpost)).
Proof. apply include_spliced. Qed.

Lemma include_is_spliced_witness :
  build include_tree ∅ (lit "main") ∅
  = Some (Return {[lit "main"; lit "part"]}
            (concat [lit "top" ++ [LF]] ++ (lit "inner" ++ [LF])
               ++ concat [lit "bottom" ++ [LF]])).
Proof.
  apply (include_is_spliced include_tree ∅ (lit "main") ∅
           (lines_text ["top"; "  #:section  part"; "bottom"]%string)
           [lit "top" ++ [LF]] [lit "top" ++ [LF]]
           (lit "  #:section  part" ++ [LF]) (lit "part")
           [lit "bottom" ++ [LF]] [lit "bottom" ++ [LF]]).
  - apply not_elem_of_empty.
  - vm_compute. reflexivity.
  - vm_compute. reflexivity.
  - apply body_plain_lines. repeat constructor.
  - apply body_plain_lines. repeat constructor.
  - vm_compute. reflexivity.
  - vm_compute. reflexivity.
  - vm_compute. reflexivity.
Defined.



(** X10: an include that is acted on and names the file being built, or any
    path that was in the visited set when the build of the file began,
    raises the circular-include error for that path. *)
Theorem include_of_visited_raises
    env defines file visited text pre inc path rest v1 st1 :
  resolve env file ∉ visited ->
  files env !! resolve env file = Some text ->
  splitlines true (strip_manifest text) = pre ++ inc :: rest ->
  process_lines (build env defines) defines ({[resolve env file]} ∪ visited)
    init_state pre = Some (Return v1 st1) ->
  any (skip_stack st1) = false ->
  startswith (strip inc) INCLUDE = true ->
  split_maxsplit1 (strip inc) !! 1%nat = Some path ->
  resolve env path ∈ {[resolve env file]} ∪ visited ->
  build env defines file visited
  = Some (Raise v1 (CircularInclude (resolve env path))).
Proof.
  intros Hin Hf Hl Hpre Hany Hi Hp Hv.
  apply (build_raises_at env defines file visited text pre inc rest v1 st1);
    try done.
  rewrite (step_include_active _ _ _ _ _ path) by done.
  rewrite build_revisit; [done |].
  apply process_lines_grows in Hpre; [|apply build_grows]. by apply Hpre.
Qed.

Lemma include_of_visited_raises_witness :
  build include_tree ∅ (lit "self") ∅
  = Some (Raise {[lit "self"]}
            (CircularInclude (resolve include_tree (lit "self")))).
Proof.
  apply (include_of_visited_raises include_tree ∅ (lit "self") ∅
           (lines_text ["top"; "#:section self"]%string)
           [lit "top" ++ [LF]] (lit "#:section self" ++ [LF]) (lit "self") []
           {[lit "self"]} {| skip_stack := []; output := [lit "top" ++ [LF]] |}).
  - apply not_elem_of_empty.
  - vm_compute. reflexivity.
  - vm_compute. reflexivity.
  - vm_compute. reflexivity.
  - reflexivity.
  - vm_compute. reflexivity.
  - vm_compute. reflexivity.
  - apply elem_of_union_l. by apply elem_of_singleton.
Defined.

(** ** More on the conditionals *)

(** X11: a second else-line in the same block is accepted and undoes the
    first: after two else-lines in a row the stack, the output and the
    visited set are as before them. *)
Theorem else_twice_restores bld defines visited st e1 e2 :
  startswith (strip e1) ELSE = true ->
  startswith (strip e2) ELSE = true ->
  skip_stack st <> [] ->
  process_lines bld defines visited st [e1; e2] = Some (Return visited st).
Proof.
  intros H1 H2 (below & top & Hst)%nonempty_snoc.
  destruct st as [stack out]. simpl in Hst. subst stack.
  cbn [process_lines]. rewrite step_else, do_else_snoc by done.
  rewrite step_else, do_else_snoc by done.
  destruct (any below); [done |]. by rewrite negb_involutive.
Qed.

Lemma else_twice_restores_witness :
  process_lines (fun _ _ => None) ∅ ∅
    {| skip_stack := [false; true]; output := [lit "x"] |}
    [lit "#:else" ++ [LF]; lit "  #:else again" ++ [LF]]
  = Some (Return ∅ {| skip_stack := [false; true]; output := [lit "x"] |}).
Proof.
  apply else_twice_restores.
  - vm_compute. reflexivity.
  - vm_compute. reflexivity.
  - discriminate.
Defined.

Lemma length_removelast (l : list bool) :
  l <> [] -> S (length (removelast l)) = length l.
Proof.
  intros (below & top & ->)%nonempty_snoc.
  rewrite removelast_last, length_app. simpl. lia.
Qed.

Section LoopInvariants.
Context (bld : builder) (defines : gset str).

Lemma step_depth visited st line v' st' :
  step bld defines visited st line = Some (Return v' st') ->
  (length (skip_stack st') + count_token ENDIF [line]
   = length (skip_stack st) + count_token IF [line])%nat.
Proof.
  cbn [count_token].
  destruct (startswith (strip line) INCLUDE) eqn:Hinc.
  - rewrite step_include by done.
    rewrite (include_not_if _ Hinc), (include_not_endif _ Hinc).
    unfold do_include. repeat case_match; intros [= <- <-]; done.
  - unfold step. rewrite Hinc.
    destruct (startswith (strip line) IF) eqn:Hif.
    + destruct (startswith (strip line) ENDIF) eqn:Hd;
        [apply endif_not_if in Hd; congruence |].
      unfold do_if. case_match; intros [= <- <-]. cbn [skip_stack].
      rewrite length_app. simpl. lia.
    + destruct (startswith (strip line) ELSE) eqn:He.
      * destruct (startswith (strip line) ENDIF) eqn:Hd;
          [apply endif_not_else in Hd; congruence |].
        unfold do_else. repeat case_match; intros [= <- <-]; [|done].
        cbn [skip_stack]. by rewrite length_insert.
      * destruct (startswith (strip line) ENDIF) eqn:Hd.
        -- unfold do_endif. destruct (skip_stack st) as [|b stack] eqn:Hst;
             [done |]. intros [= <- <-]. cbn [skip_stack].
           pose proof (length_removelast (b :: stack)) as Hlen.
           specialize (Hlen ltac:(done)).
           change (match stack with
                   | [] => []
                   | _ :: _ => b :: removelast stack
                   end) with (removelast (b :: stack)).
           lia.
        -- intros [= <- <-]. unfold do_plain. by case_match.
Qed.

Lemma step_output visited st line v' st' :
  step bld defines visited st line = Some (Return v' st') ->
  output st `prefix_of` output st'.
Proof.
  unfold step, do_include, do_if, do_else, do_endif, do_plain.
  repeat case_match; intros [= <- <-]; cbn [output];
    try done; by apply prefix_app_r.
Qed.

Lemma count_token_cons token line lines :
  count_token token (line :: lines)
  = (count_token token [line] + count_token token lines)%nat.
Proof. simpl. by case_match. Qed.

Lemma loop_depth visited st lines v' st' :
  process_lines bld defines visited st lines = Some (Return v' st') ->
  (length (skip_stack st') + count_token ENDIF lines
   = length (skip_stack st) + count_token IF lines)%nat.
Proof.
  revert visited st. induction lines as [|l lines IH]; intros visited st.
  - intros [= <- <-]. simpl. lia.
  - cbn [process_lines].
    destruct (step bld defines visited st l) as [[v1 st1|v1 e]|] eqn:Hs;
      [|done..].
    intros Hp. apply IH in Hp. apply step_depth in Hs.
    rewrite (count_token_cons ENDIF), (count_token_cons IF). lia.
Qed.

Lemma loop_output visited st lines v' st' :
  process_lines bld defines visited st lines = Some (Return v' st') ->
  output st `prefix_of` output st'.
Proof.
  revert visited st. induction lines as [|l lines IH]; intros visited st.
  - by intros [= <- <-].
  - cbn [process_lines].
    destruct (step bld defines visited st l) as [[v1 st1|v1 e]|] eqn:Hs;
      [|done..].
    intros Hp. apply IH in Hp. apply step_output in Hs. by etrans.
Qed.
End LoopInvariants.

(** X12: the depth of the conditional stack is the number of if-lines met
    less the number of endif-lines met, whether or not the lines were in a
    skipped block; else-lines and includes never change it. *)
Theorem stack_depth_counts bld defines visited st lines v' st' :
  process_lines bld defines visited st lines = Some (Return v' st') ->
  (length (skip_stack st') + count_token ENDIF lines
   = length (skip_stack st) + count_token IF lines)%nat.
Proof. apply loop_depth. Qed.

Lemma stack_depth_counts_witness :
  (length (skip_stack {| skip_stack := [true; true]; output := [] |})
   + count_token ENDIF
       [lit "#:if X" ++ [LF]; lit "#:if Y" ++ [LF]; lit "#:else" ++ [LF];
        lit "#:endif" ++ [LF]; lit "#:if Z" ++ [LF]]
   = length (skip_stack init_state)
     + count_token IF
         [lit "#:if X" ++ [LF]; lit "#:if Y" ++ [LF]; lit "#:else" ++ [LF];
          lit "#:endif" ++ [LF]; lit "#:if Z" ++ [LF]])%nat.
Proof.
  apply (stack_depth_counts (fun _ _ => None) ∅ ∅ init_state _ ∅).
  vm_compute. reflexivity.
Defined.

(** X13: the loop only ever appends to the output: what was emitted before
    a line is a prefix of what is emitted after it, so neither an else nor
    an endif nor a skipped block takes anything back. *)
Theorem output_only_grows bld defines visited st lines v' st' :
  process_lines bld defines visited st lines = Some (Return v' st') ->
  output st `prefix_of` output st'.
Proof. apply loop_output. Qed.

Lemma output_only_grows_witness :
  output {| skip_stack := []; output := [lit "x"] |}
  `prefix_of`
  output {| skip_stack := [true]; output := [lit "x"; lit "a" ++ [LF]] |}.
Proof.
  apply (output_only_grows (fun _ _ => None) ∅ ∅ _
           [lit "a" ++ [LF]; lit "#:if X" ++ [LF]; lit "b" ++ [LF]] ∅).
  vm_compute. reflexivity.
Defined.

(** ** Skipped blocks *)

Section Skipping.
Context (bld : builder) (defines : gset str).

Lemma step_unconditional_skipped visited st line :
  unconditional line -> any (skip_stack st) = true ->
  step bld defines visited st line = Some (Return visited st).
Proof.
  intros (Hi & He & Hd) Hany. unfold step, do_include, do_plain.
  rewrite Hi, He, Hd, Hany. cbn [negb].
  by destruct (startswith (strip line) INCLUDE).
Qed.

(** Under a skipping frame a well-nested run of lines changes nothing: no
    output, no include, and the stack is as before. *)
Lemma nest_run else_ok lines :
  nest else_ok lines ->
  forall visited stack out rest,
    any stack = true ->
    (else_ok = true ->
     exists below top, stack = below ++ [top] /\ any below = true) ->
    process_lines bld defines visited
      {| skip_stack := stack; output := out |} (lines ++ rest)
    = process_lines bld defines visited
        {| skip_stack := stack; output := out |} rest.
Proof.
  induction 1 as [a|a l ls Hl _ IH|e ls He _ IH|a i sym b d ls Hi Hd _ IHb _ IH];
    intros visited stack out rest Hany Helse.
  - done.
  - cbn [app process_lines].
    rewrite step_unconditional_skipped by done. by apply IH.
  - cbn [app process_lines].
    destruct (Helse eq_refl) as (below & top & -> & Hbelow).
    rewrite step_else, do_else_snoc by done. rewrite Hbelow.
    apply IH; [done |]. intros _. eauto.
  - cbn [app process_lines]. rewrite (step_tests _ _ _ _ _ _ sym) by done.
    rewrite <- app_assoc, IHb.
    + cbn [app process_lines]. rewrite step_endif, do_endif_snoc by done.
      by apply IH.
    + rewrite any_snoc, Hany. reflexivity.
    + intros _. eauto.
Qed.
End Skipping.

(** X14: a block whose symbol is not defined leaves no trace: whatever
    well-nested lines stand between its if-line and its endif-line, none is
    emitted, no include among them is acted on (not even one of a missing
    file), and stack, output and visited set after the endif-line are what
    they were before the if-line. *)
Theorem unset_symbol_excludes_block
    bld defines visited stack out i sym blk d rest :
  tests i sym -> sym ∉ defines ->
  nest false blk ->
  startswith (strip d) ENDIF = true ->
  process_lines bld defines visited
    {| skip_stack := stack; output := out |} (i :: blk ++ d :: rest)
  = process_lines bld defines visited
      {| skip_stack := stack; output := out |} rest.
Proof.
  intros Hi Hsym Hblk Hd.
  cbn [process_lines]. rewrite (step_tests _ _ _ _ _ _ sym) by done.
  rewrite bool_decide_eq_true_2 by done.
  rewrite (nest_run bld defines false blk Hblk).
  - cbn [process_lines]. by rewrite step_endif, do_endif_snoc.
  - rewrite any_snoc. apply orb_true_r.
  - done.
Qed.

Lemma unset_symbol_excludes_block_witness :
  process_lines (fun _ _ => None) {[lit "Y"]} ∅
    {| skip_stack := []; output := [lit "before"] |}
    ((lit "#:if X" ++ [LF])
       :: [lit "a" ++ [LF]; lit "#:section missing" ++ [LF];
           lit "#:if Y" ++ [LF]; lit "#:else" ++ [LF]; lit "#:else" ++ [LF];
           lit "#:endif" ++ [LF]]
       ++ (lit "#:endif" ++ [LF]) :: [])
  = process_lines (fun _ _ => None) {[lit "Y"]} ∅
      {| skip_stack := []; output := [lit "before"] |} [].
Proof.
  apply (unset_symbol_excludes_block _ _ _ _ _ _ (lit "X")).
  - split; vm_compute; reflexivity.
  - vm_compute. intros H. discriminate H.
  - apply nest_line; [repeat split |].
    apply nest_line; [repeat split |].
    apply (nest_if false (lit "#:if Y" ++ [LF]) (lit "Y")
             [lit "#:else" ++ [LF]; lit "#:else" ++ [LF]]
             (lit "#:endif" ++ [LF]) []).
    + split; vm_compute; reflexivity.
    + vm_compute. reflexivity.
    + apply nest_else; [vm_compute; reflexivity |].
      apply nest_else; [vm_compute; reflexivity |]. constructor.
    + constructor.
  - vm_compute. reflexivity.
Defined.

(** ** Manifest blocks and the build *)

Lemma build_fuel_strip_tree env defines fuel file visited :
  build_fuel fuel (strip_tree env) defines file visited
  = build_fuel fuel env defines file visited.
Proof.
  revert file visited. induction fuel as [|n IH]; intros file visited; [done |].
  cbn [build_fuel]. unfold build_body. cbn [strip_tree resolve files].
  case_bool_decide; [done |]. rewrite lookup_fmap.
  destruct (files env !! resolve env file) as [text|]; [|done].
  cbn [fmap option_fmap option_map]. rewrite strip_manifest_idem.
  rewrite (process_lines_ext defines _ (build_fuel n env defines) ∅);
    [done | apply build_fuel_grows | done | apply empty_subseteq].
Qed.

(** X15: what stands inside the manifest blocks of the files has no part in
    the text [build] returns nor in its errors: removing the manifest block
    of every file beforehand gives the same outcome. *)
Theorem build_ignores_manifest_blocks env defines file visited :
  build (strip_tree env) defines file visited
  = build env defines file visited.
Proof.
  unfold build. cbn [strip_tree files]. rewrite map_size_fmap.
  apply build_fuel_strip_tree.
Qed.

(** ** The end of [run_build] *)





(** ** Building again without clearing the visited set *)


